(** * ansible-sql-runner: [impala_query] and [postgresql_query]

    A shallow embedding of the two Ansible modules
    [library/impala_query.py] and [library/postgresql_query.py], and the
    properties of their query source resolver, replay log, executor loop and
    result reporter.

    The modules talk to three outside parties: the database driver, the file
    system and the Ansible runtime.  They are modelled by an explicit
    [environment]; everything a run does to them is recorded, in order, in a
    trace of [event]s.  A run ends in one of three ways: [module.exit_json]
    with an [output], [module.fail_json] with a [failure], or an
    [exception] that nobody catches.

    In the runs, whether the connection opens is the environment's
    [connect_ok]; the keyword arguments that the modules build for the
    driver's [connect] are modelled on their own ([impala_connect_kw],
    [pg_connect_kw]).  A [str] is a [string] of the characters below code
    point 256.  Left out of the model: failures of [query_log.write] on a
    log that was opened for appending. *)

From stdpp Require Import gmap strings list.
From Stdlib Require Import Ascii String ZArith.

Local Open Scope string_scope.
Local Open Scope Z_scope.

(** ** Python string operations used by the modules *)

Module Py.

Definition nl : ascii := "010"%char.
Definition semi : ascii := ";"%char.

(** [x + y] on [str]. *)
Definition add (x y : string) : string := String.append x y.

(** Truth value of a [str]: the empty string is false. *)
Definition truthy (s : string) : bool :=
  match s with
  | EmptyString => false
  | String _ _ => true
  end.

(** [s.endswith(suffix)]. *)
Fixpoint endswith (s suffix : string) : bool :=
  String.eqb s suffix ||
  match s with
  | EmptyString => false
  | String _ s' => endswith s' suffix
  end.

(** [sub in s] on [str]: [sub] occurs in [s] as a contiguous run. *)
Fixpoint contains (sub s : string) : bool :=
  String.prefix sub s ||
  match s with
  | EmptyString => false
  | String _ s' => contains sub s'
  end.

(** [s.lstrip('\n')]. *)
Fixpoint lstrip_nl (s : string) : string :=
  match s with
  | EmptyString => EmptyString
  | String a s' => if Ascii.eqb a nl then lstrip_nl s' else s
  end.

(** [s.rstrip('\n')]. *)
Fixpoint rstrip_nl (s : string) : string :=
  match s with
  | EmptyString => EmptyString
  | String a s' =>
      let r := rstrip_nl s' in
      if Ascii.eqb a nl && negb (truthy r) then EmptyString else String a r
  end.

(** [s.strip('\n')]: every leading and every trailing line break goes. *)
Definition strip_nl (s : string) : string := rstrip_nl (lstrip_nl s).

(** The class [\s] of the [re] module for a [str] pattern, on the
    characters of the model, which are the code points below 256: space,
    [\t], [\n], [\v], [\f], [\r], the separators [\x1c] to [\x1f],
    [\x85] and [\xa0]. *)
Definition is_space (a : ascii) : bool :=
  let n := nat_of_ascii a in
  (n =? 32)%nat || ((9 <=? n)%nat && (n <=? 13)%nat)
  || ((28 <=? n)%nat && (n <=? 31)%nat) || (n =? 133)%nat || (n =? 160)%nat.

Definition starts_with_space (s : string) : bool :=
  match s with
  | EmptyString => false
  | String a _ => is_space a
  end.

(** [re.compile(r';\s+').sub(';\n', s)].  The scan goes left to right;
    [skipping] is true while the scan is inside the white space of a match
    whose replacement has already been emitted ([\s+] is greedy, so the
    whole run belongs to the match). *)
Fixpoint sub_semi_space (skipping : bool) (s : string) : string :=
  match s with
  | EmptyString => EmptyString
  | String a s' =>
      if skipping && is_space a then sub_semi_space true s'
      else if Ascii.eqb a semi && starts_with_space s'
           then String semi (String nl (sub_semi_space true s'))
           else String a (sub_semi_space false s')
  end.

Definition re_sub (s : string) : string := sub_semi_space false s.

(** Put a character in front of the first piece of a split. *)
Definition cons_piece (a : ascii) (pieces : list string) : list string :=
  match pieces with
  | [] => [String a EmptyString]
  | p :: ps => String a p :: ps
  end.

(** [s.split(';\n')]: the pieces between the occurrences of the two
    characters [;] and line break, found from the left without overlap.
    There is always at least one piece. *)
Fixpoint split_semi_nl (s : string) : list string :=
  match s with
  | EmptyString => [EmptyString]
  | String a s' =>
      match s' with
      | String b s'' =>
          if Ascii.eqb a semi && Ascii.eqb b nl
          then EmptyString :: split_semi_nl s''
          else cons_piece a (split_semi_nl s')
      | EmptyString => [String a EmptyString]
      end
  end.

(** [';\n'.join(pieces)]. *)
Fixpoint join_semi_nl (pieces : list string) : string :=
  match pieces with
  | [] => EmptyString
  | [p] => p
  | p :: ps => add p (String semi (String nl (join_semi_nl ps)))
  end.

(** [[line for line in pieces if line]]. *)
Definition nonempty (pieces : list string) : list string :=
  List.filter truthy pieces.

(** [x in l] for a list of [str]. *)
Definition mem (x : string) (l : list string) : bool :=
  List.existsb (String.eqb x) l.

End Py.

(** The one-character string ['\n']. *)
Definition line_break : string := String Py.nl "".

(** ** Data model *)

(** Values that travel between the playbook, the module and the driver. *)
Inductive pyval : Type :=
| PNone
| PInt (z : Z)
| PStr (s : string).

(** The [arguments] variable handed to [cursor.execute]: [None], the
    [positional_args] list or the [named_args] dict. *)
Inductive arguments : Type :=
| ArgNone
| ArgPositional (l : list pyval)
| ArgNamed (d : gmap string pyval).

(** [module.params], restricted to the entries [main] reads after the
    connection is set up.  An option left out of the playbook is [None]. *)
Record params : Type := {
  query : option string;
  positional_args : option (list pyval);
  named_args : option (gmap string pyval);
  fact : option string;
  query_log : option string
}.

(** What [cursor.fetchall()] does. *)
Inductive fetch_result (R : Type) : Type :=
| Rows (rows : list R)
| ProgrammingError
| OtherError.
Arguments Rows {R} rows.
Arguments ProgrammingError {R}.
Arguments OtherError {R}.

(** One entry of [cursor.description]: the column name and its type code. *)
Definition column : Type := string * string.

(** The cursor after a statement: the attributes the result reporter
    reads.  [R] is the type of a fetched row. *)
Record cursor (R : Type) : Type := {
  rowcount : Z;
  fetchall : fetch_result R;
  description : option (list column);
  statusmessage : string
}.
Arguments rowcount {R} c.
Arguments fetchall {R} c.
Arguments description {R} c.
Arguments statusmessage {R} c.

(** Everything outside the module.  [execute hist q args] is the driver's
    answer to [cursor.execute(q, args)] when the statements [hist] were
    executed before on this connection: the new cursor, or [None] when the
    driver raises. *)
Record environment (R : Type) : Type := {
  has_driver : bool;
  connect_ok : bool;
  files : gmap string string;
  appendable : string → bool;
  execute : list string → string → arguments → option (cursor R);
  fresh_cursor : cursor R;
  check_mode : bool
}.
Arguments has_driver {R} e.
Arguments connect_ok {R} e.
Arguments files {R} e.
Arguments appendable {R} e.
Arguments execute {R} e hist q args.
Arguments fresh_cursor {R} e.
Arguments check_mode {R} e.

(** What a run does to the outside, in order. *)
Inductive event : Type :=
| EvConnect
| EvReadFile (path : string)
| EvOpenLog (path : string)
| EvExecute (q : string) (args : arguments)
| EvLogWrite (text : string)
| EvLogClose
| EvFetchAll
| EvCommit
| EvRollback
| EvCloseDb.

(** The messages of [module.fail_json], by what they carry. *)
Inductive failure : Type :=
| ConfigurationConflict
| MissingDriver
| ConnectionFailed
| SourceUnavailable (path : string)
| NoQueryLogPath
| LogUnavailable (path : string)
| StatementExecutionFailed (q : option string) (args : arguments).

(** Exceptions that no handler of [main] catches. *)
Inductive exception : Type :=
| AttributeError
| UnboundLocalError (variable : string)
| NameError (name : string)
| TypeError
| DriverError.

Inductive stop : Type :=
| FailJson (f : failure)
| Raise (e : exception).

(** The keyword arguments of [module.exit_json]. *)
Record output (R : Type) : Type := {
  changed : bool;
  stout_lines : string;
  query_results : list R;
  ansible_facts : gmap (option string) (list R);
  rowcount_out : Z
}.
Arguments changed {R} o.
Arguments stout_lines {R} o.
Arguments query_results {R} o.
Arguments ansible_facts {R} o.
Arguments rowcount_out {R} o.

(** ** Runs: a trace of events and how the run ended *)

Definition run (A : Type) : Type := list event * (stop + A).

Definition trace {A} (r : run A) : list event := fst r.
Definition ending {A} (r : run A) : stop + A := snd r.

Global Instance run_ret : MRet run := λ A x, ([], inr x).

Global Instance run_bind : MBind run := λ A B k m,
  match m with
  | (tr, inl s) => (tr, inl s)
  | (tr, inr x) => let r := k x in ((tr ++ fst r)%list, snd r)
  end.

Definition emit (e : event) : run unit := ([e], inr tt).
Definition fail_json {A} (f : failure) : run A := ([], inl (FailJson f)).
Definition raise {A} (e : exception) : run A := ([], inl (Raise e)).

(** The statements handed to [cursor.execute], in order. *)
Definition submitted (tr : list event) : list string :=
  omap (λ e, match e with EvExecute q _ => Some q | _ => None end) tr.

(** The texts handed to [query_log.write], in order. *)
Definition log_writes (tr : list event) : list string :=
  omap (λ e, match e with EvLogWrite t => Some t | _ => None end) tr.

(** The log file is opened in mode ['a+']: every write lands at the end. *)
Definition log_after (before : string) (tr : list event) : string :=
  foldl Py.add before (log_writes tr).

Definition connection_attempted (tr : list event) : bool :=
  List.existsb (λ e, match e with EvConnect => true | _ => false end) tr.

(** ** Steps shared by the two modules *)

(** [AnsibleModule(..., mutually_exclusive=[["positional_args",
    "named_args"]])]: the runtime rejects a playbook that sets both. *)
Definition ansible_module (p : params) : run unit :=
  match positional_args p, named_args p with
  | Some _, Some _ => fail_json ConfigurationConflict
  | _, _ => mret tt
  end.

(** [if not HAS_IMPYLA: module.fail_json(...)], and the same for
    [HAS_PSYCOPG2]. *)
Definition require_driver {R} (env : environment R) : run unit :=
  if has_driver env then mret tt else fail_json MissingDriver.

(** The [try] block around the driver's [connect] call and the creation of
    the cursor; any exception ends in [module.fail_json]. *)
Definition connect {R} (env : environment R) : run unit :=
  emit EvConnect ;;
  if connect_ok env then mret tt else fail_json ConnectionFailed.

(** [module.params["query"]]; a missing option is [None], and
    [None.endswith] raises. *)
Definition get_query (p : params) : run string :=
  match query p with
  | Some q => mret q
  | None => raise AttributeError
  end.

(** [open(query, 'r').read().strip('\n')] inside its [try]. *)
Definition read_query_file {R} (env : environment R) (path : string)
  : run string :=
  emit (EvReadFile path) ;;
  match files env !! path with
  | Some content => mret (Py.strip_nl content)
  | None => fail_json (SourceUnavailable path)
  end.

(** The [# prepare args] block. *)
Definition prepare_args (p : params) : arguments :=
  match positional_args p with
  | Some l => ArgPositional l
  | None =>
      match named_args p with
      | Some d => ArgNamed d
      | None => ArgNone
      end
  end.

(** ** [impala_query.main] *)

(** A fetched row is a tuple; a shaped row maps description entries to the
    values of the tuple. *)
Definition impala_row : Type := list pyval.
Definition shaped_row : Type := gmap column pyval.

(** [[line for line in compiled_regex.sub(';\n', sql_file).split(';\n')
    if line]]. *)
Definition split_statements (sql_file : string) : list string :=
  Py.nonempty (Py.split_semi_nl (Py.re_sub sql_file)).

(** Line 236: [[...] if sql_file else [query]].  The local [sql_file] is
    bound only in the ['.sql'] branch of line 214: [None] stands for the
    unbound local, whose read raises. *)
Definition statements_of (query content : string) : list string :=
  if Py.truthy content then split_statements content else [query].

Definition resolve_queries (query : string) (sql_file : option string)
  : run (list string) :=
  match sql_file with
  | None => raise (UnboundLocalError "sql_file")
  | Some content => mret (statements_of query content)
  end.

(** Line 239: [[line for line in query_log.read().strip('\n').split(';\n')
    if line]]. *)
Definition already_ran_queries (log : string) : list string :=
  Py.nonempty (Py.split_semi_nl (Py.strip_nl log)).

(** Lines 222-230: the path must be given, and the file opens in ['a+']
    mode (created empty when it is not there). *)
Definition open_query_log {R} (env : environment R) (p : params)
  : run string :=
  match query_log p with
  | None => fail_json NoQueryLogPath
  | Some path =>
      if Py.truthy path then
        emit (EvOpenLog path) ;;
        if appendable env path then mret (default "" (files env !! path))
        else fail_json (LogUnavailable path)
      else fail_json NoQueryLogPath
  end.

(** The [for query in queries] loop.  [hist] are the statements executed so
    far in this run and [cur] the state of the cursor. *)
Fixpoint run_queries {R} (env : environment R) (already : list string)
    (args : arguments) (hist : list string) (cur : cursor R)
    (queries : list string) : run (cursor R) :=
  match queries with
  | [] => mret cur
  | q :: rest =>
      if Py.mem q already then run_queries env already args hist cur rest
      else
        emit (EvExecute q args) ;;
        match execute env hist q args with
        | None => fail_json (StatementExecutionFailed (Some q) args)
        | Some cur' =>
            emit (EvLogWrite (Py.add q line_break)) ;;
            run_queries env already args (hist ++ [q])%list cur' rest
        end
  end.

(** [{name: row[idx] for idx, name in enumerate(cursor.description)}]:
    [None] when [row[idx]] is out of range.  A later entry with the same key
    replaces an earlier one. *)
Fixpoint shape_row (idx : nat) (desc : list column) (row : impala_row)
    (acc : shaped_row) : option shaped_row :=
  match desc with
  | [] => Some acc
  | name :: desc' =>
      match row !! idx with
      | Some v => shape_row (S idx) desc' row (<[name := v]> acc)
      | None => None
      end
  end.

(** The body of the [try] at lines 267-270: [None] when anything in it
    raises ([fetchall] itself, [enumerate(None)], an index out of range). *)
Definition shape_results (cur : cursor impala_row)
  : option (list shaped_row) :=
  match fetchall cur with
  | Rows rows =>
      match rows, description cur with
      | [], _ => Some []
      | _ :: _, None => None
      | _ :: _, Some desc => mapM (λ row, shape_row 0 desc row ∅) rows
      end
  | ProgrammingError | OtherError => None
  end.

(** [module.exit_json] writes its keyword arguments as JSON, and a dict
    whose keys are tuples cannot be written: [json.dumps] raises
    [TypeError].  A shaped row is keyed by the entries of
    [cursor.description], which are tuples, so the results can be written
    only when no shaped row has a key. *)
Definition json_writable (results : list shaped_row) : bool :=
  forallb (λ row, bool_decide (row = ∅)) results.

(** Lines 261-293.  The handler is [except impala.error.ProgrammingError],
    and the module binds no name [impala] (it imports only [connect] from
    [impala.dbapi]): when the [try] body raises, evaluating the handler's
    class raises [NameError].  The run ends in the call of
    [module.exit_json], after the commit and the close. *)
Definition impala_report (env : environment impala_row) (p : params)
    (cur : cursor impala_row) : run (output shaped_row) :=
  '(query_results, ansible_facts, rowcount) ←
    (if 0 <? rowcount cur then
       emit EvFetchAll ;;
       match shape_results cur with
       | Some results =>
           mret (results,
                 match fact p with
                 | Some name => {[ Some name := results ]}
                 | None => ∅
                 end,
                 Z.of_nat (List.length results))
       | None => raise (NameError "impala")
       end
     else mret ([], ∅, 0)) ;
  emit EvCommit ;;
  emit EvCloseDb ;;
  if json_writable query_results
  then mret {| changed := true;
               stout_lines := statusmessage cur;
               query_results := query_results;
               ansible_facts := ansible_facts;
               rowcount_out := rowcount |}
  else raise TypeError.

Definition impala_main (env : environment impala_row) (p : params)
  : run (output shaped_row) :=
  ansible_module p ;;
  require_driver env ;;
  connect env ;;
  query ← get_query p ;
  sql_file ← (if Py.endswith query ".sql"
               then content ← read_query_file env query ; mret (Some content)
               else mret None) ;
  log ← open_query_log env p ;
  queries ← resolve_queries query sql_file ;
  cur ← run_queries env (already_ran_queries log) (prepare_args p) []
          (fresh_cursor env) queries ;
  emit EvLogClose ;;
  impala_report env p cur.

(** ** [postgresql_query.main] *)

(** With [RealDictCursor] a fetched row already maps column names to
    values. *)
Definition pg_row : Type := gmap string pyval.

(** Lines 304-350.  The local [ansible_facts] is bound only in the
    [cursor.rowcount > 0] branch; [None] stands for the unbound local, which
    the call of [module.exit_json] reads. *)
Definition postgresql_report (env : environment pg_row) (p : params)
    (cur : cursor pg_row) : run (output pg_row) :=
  '(query_results, ansible_facts, rowcount) ←
    (if 0 <? rowcount cur then
       emit EvFetchAll ;;
       query_results ← match fetchall cur with
                       | Rows rows => mret rows
                       | ProgrammingError => mret []
                       | OtherError => raise DriverError
                       end ;
       mret (query_results,
             Some ({[ fact p := query_results ]}
                     : gmap (option string) (list pg_row)),
             Z.of_nat (List.length query_results))
     else mret ([], None, 0)) ;
  let changed := negb (Py.contains "SELECT" (statusmessage cur)) in
  (if changed
   then if check_mode env then emit EvRollback else emit EvCommit
   else mret tt) ;;
  emit EvCloseDb ;;
  match ansible_facts with
  | None => raise (UnboundLocalError "ansible_facts")
  | Some facts =>
      mret {| changed := changed;
              stout_lines := statusmessage cur;
              query_results := query_results;
              ansible_facts := facts;
              rowcount_out := rowcount |}
  end.

Definition postgresql_main (env : environment pg_row) (p : params)
  : run (output pg_row) :=
  ansible_module p ;;
  require_driver env ;;
  connect env ;;
  query ← get_query p ;
  query ← (if Py.endswith query ".sql" then read_query_file env query
            else mret query) ;
  let arguments := prepare_args p in
  emit (EvExecute query arguments) ;;
  match execute env [] query arguments with
  | None => fail_json (StatementExecutionFailed None arguments)
  | Some cur => postgresql_report env p cur
  end.

(** ** Observations on the executor loop *)

(** What one iteration that executes [q] successfully does: submit, then
    write the log. *)
Definition executed (args : arguments) (q : string) : list event :=
  [EvExecute q args; EvLogWrite (Py.add q line_break)].

(** The statements of the batch that the filter lets through. *)
Definition to_run (already queries : list string) : list string :=
  List.filter (λ q, negb (Py.mem q already)) queries.

(** The commits and rollbacks of a run, in order. *)
Definition transaction_events (tr : list event) : list event :=
  List.filter
    (λ e, match e with EvCommit | EvRollback => true | _ => false end) tr.

(** Whether the run was ended by a statement that the driver rejected. *)
Definition statement_failed {A} (e : stop + A) : bool :=
  match e with
  | inl (FailJson (StatementExecutionFailed _ _)) => true
  | _ => false
  end.

(** How often [x] occurs in a list of strings. *)
Definition occurrences (x : string) (l : list string) : nat :=
  List.length (List.filter (String.eqb x) l).

(** How many of the writes to the log are the record of statement [q]. *)
Definition times_appended (q : string) (tr : list event) : nat :=
  occurrences (Py.add q line_break) (log_writes tr).

(** What it takes for a run of [impala_query] to get from a statement
    file to the executor loop: the playbook does not set both kinds of
    arguments, the driver is installed, the connection opens, [query] names
    a ['.sql'] file that can be read (content [raw]), and [query_log] names
    a file that can be opened for appending. *)
Record impala_file_setup (env : environment impala_row) (p : params)
    (path raw logpath : string) : Prop := {
  setup_exclusive : positional_args p = None ∨ named_args p = None;
  setup_driver : has_driver env = true;
  setup_connect : connect_ok env = true;
  setup_query : query p = Some path;
  setup_sql : Py.endswith path ".sql" = true;
  setup_file : files env !! path = Some raw;
  setup_logpath : query_log p = Some logpath;
  setup_logname : Py.truthy logpath = true;
  setup_logopen : appendable env logpath = true
}.

(** What it takes for either module to get past its first lines: the
    playbook does not set both kinds of arguments, the driver is installed,
    the connection opens, and [query] is [q]. *)
Record module_started {R} (env : environment R) (p : params) (q : string)
  : Prop := {
  started_exclusive : positional_args p = None ∨ named_args p = None;
  started_driver : has_driver env = true;
  started_connect : connect_ok env = true;
  started_query : query p = Some q
}.

(** ** Concrete hosts and playbooks *)

(** A cursor that has no result set. *)
Definition idle_cursor : cursor impala_row :=
  {| rowcount := -1;
     fetchall := ProgrammingError;
     description := None;
     statusmessage := "" |}.

(** An Impala host on which everything works: the driver is installed, the
    connection opens, every path can be opened for appending and every
    statement executes, leaving [cur]. *)
Definition impala_host (fs : gmap string string) (cur : cursor impala_row)
  : environment impala_row :=
  {| has_driver := true;
     connect_ok := true;
     files := fs;
     appendable := λ _, true;
     execute := λ _ _ _, Some cur;
     fresh_cursor := idle_cursor;
     check_mode := false |}.

(** A playbook task with a query, a log path and nothing else. *)
Definition task (q : string) (log : option string) : params :=
  {| query := Some q;
     positional_args := None;
     named_args := None;
     fact := None;
     query_log := log |}.

Definition insert_1 : string := "INSERT INTO t VALUES (1)".
Definition insert_2 : string := "INSERT INTO t VALUES (2)".

(** [INSERT INTO t VALUES (1);\nINSERT INTO t VALUES (2);\n] *)
Definition two_inserts : string :=
  insert_1 +:+ ";" +:+ line_break +:+ insert_2 +:+ ";" +:+ line_break.

(** [INSERT INTO t VALUES (1);\nINSERT INTO t VALUES (1);\n
    INSERT INTO t VALUES (2);\n] *)
Definition insert_repeated : string :=
  insert_1 +:+ ";" +:+ line_break +:+ two_inserts.



(** The statement file [batch.sql] holds [content]; [log] is what the
    replay log [ran.log] holds, if it exists; every statement leaves the
    cursor [cur]. *)
Definition batch_host_leaving (cur : cursor impala_row) (content : string)
    (log : option string) : environment impala_row :=
  impala_host
    (<["batch.sql" := content]>
       (match log with
        | Some text => {[ "ran.log" := text ]}
        | None => ∅
        end))
    cur.

Definition batch_host (content : string) (log : option string)
  : environment impala_row :=
  batch_host_leaving idle_cursor content log.

Definition batch_task : params := task "batch.sql" (Some "ran.log").

(** A record as the reader of the replay log splits it off: the statement,
    a semicolon, a line break. *)
Definition terminated_record (q : string) : string :=
  q +:+ ";" +:+ line_break.

(** A statement file written on one line, with a space after the last
    semicolon. *)
Definition inserts_on_one_line : string :=
  insert_1 +:+ "; " +:+ insert_2 +:+ "; ".

(** A PostgreSQL host on which everything works and every statement leaves
    the cursor [cur]; [check] is Ansible's check mode. *)
Definition pg_host (cur : cursor pg_row) (check : bool)
  : environment pg_row :=
  {| has_driver := true;
     connect_ok := true;
     files := ∅;
     appendable := λ _, true;
     execute := λ _ _ _, Some cur;
     fresh_cursor := cur;
     check_mode := check |}.

(** [SELECT * FROM t] on an empty table. *)
Definition select_no_rows : cursor pg_row :=
  {| rowcount := 0;
     fetchall := Rows [];
     description := Some [("id", "int4")];
     statusmessage := "SELECT 0" |}.

(** [SELECT * FROM t] on a table with two rows. *)
Definition pg_two_rows : list pg_row :=
  [ {[ "id" := PInt 1 ]}; {[ "id" := PInt 2 ]} ].

Definition select_two_rows : cursor pg_row :=
  {| rowcount := 2;
     fetchall := Rows pg_two_rows;
     description := Some [("id", "int4")];
     statusmessage := "SELECT 2" |}.

(** [UPDATE t SET id = 3] on a table with one row: one affected row, no
    result set. *)
Definition update_one_row {R} : cursor R :=
  {| rowcount := 1;
     fetchall := ProgrammingError;
     description := None;
     statusmessage := "UPDATE 1" |}.

(** On Impala: a statement that leaves two rows of one column. *)
Definition impala_two_rows : cursor impala_row :=
  {| rowcount := 2;
     fetchall := Rows [[PInt 1]; [PInt 2]];
     description := Some [("id", "INT")];
     statusmessage := "" |}.

Definition shaped_two_rows : list shaped_row :=
  [ {[ ("id", "INT") := PInt 1 ]}; {[ ("id", "INT") := PInt 2 ]} ].

(** A task with a fact name. *)
Definition task_with_fact (q : string) (log : option string) (name : string)
  : params :=
  {| query := Some q;
     positional_args := None;
     named_args := None;
     fact := Some name;
     query_log := log |}.

(** ** The keyword arguments of the driver's [connect] *)

Global Instance pyval_eq_dec : EqDecision pyval.
Proof. solve_decision. Defined.

(** The entries of [params_map] in [impala_query.main] (lines 189-195) and
    in [postgresql_query.main] (lines 246-254): module option, driver
    keyword. *)
Definition impala_options : list (string * string) :=
  [("login_host", "host"); ("login_user", "user");
   ("login_password", "password"); ("port", "port"); ("db", "database")].

Definition pg_options : list (string * string) :=
  (impala_options
   ++ [("ssl_mode", "sslmode"); ("ssl_rootcert", "sslrootcert")])%list.

Definition impala_params_map : gmap string string :=
  list_to_map impala_options.

Definition pg_params_map : gmap string string := list_to_map pg_options.

(** The test on the value: [v != ""] in [impala_query],
    [v != '' and v is not None] in [postgresql_query]. *)
Definition impala_keeps (v : pyval) : bool := bool_decide (v ≠ PStr "").

Definition pg_keeps (v : pyval) : bool :=
  bool_decide (v ≠ PStr "") && bool_decide (v ≠ PNone).

(** [dict((params_map[k], v) for (k, v) in iteritems(module.params)
    if k in params_map and <test on v>)]: the items of [module.params] are
    visited one by one, and an item that passes is stored under its driver
    keyword. *)
Definition driver_keywords (params_map : gmap string string)
    (keeps : pyval → bool) (module_params : gmap string pyval)
  : gmap string pyval :=
  map_fold
    (λ k v kw,
       match params_map !! k with
       | Some keyword => if keeps v then <[keyword := v]> kw else kw
       | None => kw
       end)
    ∅ module_params.

(** [is_localhost = "host" not in kw or kw["host"] == "" or
    kw["host"] == "localhost"]. *)
Definition is_localhost (kw : gmap string pyval) : bool :=
  match kw !! "host" with
  | None => true
  | Some host =>
      bool_decide (host = PStr "") || bool_decide (host = PStr "localhost")
  end.

(** [if is_localhost and module.params["login_unix_socket"] != "":
    kw["host"] = module.params["login_unix_socket"]].  The subscript is
    evaluated only for a local host; [None] is its [KeyError]. *)
Definition with_unix_socket (module_params kw : gmap string pyval)
  : option (gmap string pyval) :=
  if is_localhost kw then
    match module_params !! "login_unix_socket" with
    | None => None
    | Some socket =>
        Some (if bool_decide (socket ≠ PStr "")
              then <["host" := socket]> kw
              else kw)
    end
  else Some kw.

(** Lines 189-202 of [impala_query.main]. *)
Definition impala_connect_kw (module_params : gmap string pyval)
  : option (gmap string pyval) :=
  with_unix_socket module_params
    (driver_keywords impala_params_map impala_keeps module_params).

(** Lines 246-262 of [postgresql_query.main]. *)
Definition pg_connect_kw (module_params : gmap string pyval)
  : option (gmap string pyval) :=
  with_unix_socket module_params
    (driver_keywords pg_params_map pg_keeps module_params).

(** Whether [login_host] leaves the host to the socket: it is missing, it
    fails the test on the value, or it is ['localhost']. *)
Definition local_host (keeps : pyval → bool)
    (module_params : gmap string pyval) : Prop :=
  match module_params !! "login_host" with
  | None => True
  | Some host => keeps host = false ∨ host = PStr "localhost"
  end.

(** The [login_host] that reaches the keywords before the socket is looked
    at. *)
Definition kept_host (keeps : pyval → bool)
    (module_params : gmap string pyval) : option pyval :=
  match module_params !! "login_host" with
  | Some host => if keeps host then Some host else None
  | None => None
  end.

(** How the [host] keyword is decided: a [login_host] that passes the test
    and is not ['localhost'] is the host whatever the socket is; otherwise a
    socket that is not the empty string is the host, and with an empty
    socket the host is [login_host] if that passed the test. *)
Definition host_rule (keeps : pyval → bool)
    (connect_kw : gmap string pyval → option (gmap string pyval)) : Prop :=
  ∀ module_params,
    (∀ host, module_params !! "login_host" = Some host →
             keeps host = true → host ≠ PStr "localhost" →
             ∃ kw, connect_kw module_params = Some kw ∧
                   kw !! "host" = Some host) ∧
    (∀ socket, local_host keeps module_params →
               module_params !! "login_unix_socket" = Some socket →
               ∃ kw, connect_kw module_params = Some kw ∧
                     kw !! "host" = if bool_decide (socket ≠ PStr "")
                                    then Some socket
                                    else kept_host keeps module_params).

(** The options of a task that talks to a local server through a socket,
    the rest left at the defaults of [impala_query]. *)
Definition socket_params : gmap string pyval :=
  list_to_map
    [("login_host", PStr ""); ("login_user", PStr "impala");
     ("login_password", PNone); ("port", PInt 21050); ("db", PNone);
     ("login_unix_socket", PStr "/var/run/db.sock");
     ("query", PStr "SELECT 1"); ("fact", PNone)].

(** The options of a task that names a remote server and a socket. *)
Definition remote_params : gmap string pyval :=
  <["login_host" := PStr "db.example.org"]> socket_params.

(** ** [Postgres.ensure_libs] *)

(** What a call of [ensure_libs] does: return [None], or raise. *)
Inductive libs_check : Type :=
| LibsOk
| LibsRaise (e : exception).

(** Lines 181-188.  [installed] is [HAS_PSYCOPG2] and [version] is
    [psycopg2.__version__]; [<] on [str] is the lexicographic order.  Both
    [raise] statements build a [LibraryError], a name that the module
    neither defines nor imports, so what is raised is [NameError]. *)
Definition ensure_libs (installed : bool) (version : string)
    (sslrootcert : option string) : libs_check :=
  if negb installed
  then LibsRaise (NameError "LibraryError")
  else if match sslrootcert with
          | Some cert => Py.truthy cert
          | None => false
          end && String.ltb version "2.4.3"
       then LibsRaise (NameError "LibraryError")
       else LibsOk.

(** ** Kinds of events *)

(** The events before the first statement: connecting, reading the
    statement file, opening the log. *)
Definition prelude_event (e : event) : bool :=
  match e with
  | EvConnect | EvReadFile _ | EvOpenLog _ => true
  | _ => false
  end.

(** The events that end the work on the database and on the log. *)
Definition closing_event (e : event) : bool :=
  match e with
  | EvCommit | EvRollback | EvCloseDb | EvLogClose => true
  | _ => false
  end.

(** The statement that a run of [postgresql_query] submits for the query
    [q]: the query itself, or the trimmed content of the file it names. *)
Inductive pg_statement (env : environment pg_row) (q : string)
  : string → list event → Prop :=
| pg_literal :
    Py.endswith q ".sql" = false →
    pg_statement env q q [EvConnect]
| pg_file (raw : string) :
    Py.endswith q ".sql" = true →
    files env !! q = Some raw →
    pg_statement env q (Py.strip_nl raw) [EvConnect; EvReadFile q].

(** How both modules fail before they get to the query: with both kinds of
    arguments set, before anything else; without the driver, before the
    connection is attempted; and when the connection does not open, right
    after the attempt. *)
Definition fails_early {R O} (main : environment R → params → run O)
  : Prop :=
  ∀ env p,
    (is_Some (positional_args p) → is_Some (named_args p) →
     main env p = ([], inl (FailJson ConfigurationConflict))) ∧
    (positional_args p = None ∨ named_args p = None →
     has_driver env = false →
     main env p = ([], inl (FailJson MissingDriver))) ∧
    (positional_args p = None ∨ named_args p = None →
     has_driver env = true → connect_ok env = false →
     main env p = ([EvConnect], inl (FailJson ConnectionFailed))).

(** An Impala host like [batch_host] whose driver accepts [insert_1] and
    rejects every other statement. *)
Definition picky_host (content : string) : environment impala_row :=
  {| has_driver := true;
     connect_ok := true;
     files := {[ "batch.sql" := content ]};
     appendable := λ _, true;
     execute := λ _ q _, if String.eqb q insert_1 then Some idle_cursor
                         else None;
     fresh_cursor := idle_cursor;
     check_mode := false |}.

(** The events of the result reporters. *)
Definition report_event (e : event) : bool :=
  match e with
  | EvFetchAll | EvCommit | EvRollback | EvCloseDb => true
  | _ => false
  end.

(** The paths handed to [open(query, 'r')], in order. *)
Definition files_read (tr : list event) : list string :=
  omap (λ e, match e with EvReadFile path => Some path | _ => None end) tr.

(** The arguments handed to [cursor.execute], in order. *)
Definition bound_arguments (tr : list event) : list arguments :=
  omap (λ e, match e with EvExecute _ args => Some args | _ => None end) tr.

(** [CREATE TABLE t (id int)]: no row count, no result set. *)
Definition create_table : cursor pg_row :=
  {| rowcount := -1;
     fetchall := ProgrammingError;
     description := None;
     statusmessage := "CREATE TABLE" |}.

(** The same host with other files. *)
Definition with_files {R} (env : environment R) (fs : gmap string string)
  : environment R :=
  {| has_driver := has_driver env;
     connect_ok := connect_ok env;
     files := fs;
     appendable := appendable env;
     execute := execute env;
     fresh_cursor := fresh_cursor env;
     check_mode := check_mode env |}.

(** ** Shapes of statement texts *)

(** Whether somewhere in [s] a [;] is followed by a white space character:
    whether [;\s+] matches. *)
Fixpoint has_semi_space (s : string) : bool :=
  match s with
  | EmptyString => false
  | String a s' =>
      (Ascii.eqb a Py.semi && Py.starts_with_space s') || has_semi_space s'
  end.

(** Whether every [;] of [s] that is followed by white space is followed by
    exactly one line break and no further white space. *)
Fixpoint semi_normal (s : string) : bool :=
  match s with
  | EmptyString => true
  | String a s' =>
      if Ascii.eqb a Py.semi && Py.starts_with_space s'
      then match s' with
           | String b s'' =>
               Ascii.eqb b Py.nl && negb (Py.starts_with_space s'')
               && semi_normal s''
           | EmptyString => true
           end
      else semi_normal s'
  end.

Definition starts_with_nl (s : string) : bool :=
  match s with
  | String a _ => Ascii.eqb a Py.nl
  | EmptyString => false
  end.

Fixpoint ends_with_nl (s : string) : bool :=
  match s with
  | EmptyString => false
  | String a EmptyString => Ascii.eqb a Py.nl
  | String _ s' => ends_with_nl s'
  end.


(** * Properties *)

(** ** The string operations on small inputs *)

Example endswith_sql : Py.endswith "scripts/q.sql" ".sql" = true.
Proof. reflexivity. Qed.

Example endswith_not_sql : Py.endswith "SELECT 1" ".sql" = false.
Proof. reflexivity. Qed.

Example strip_both_ends :
  Py.strip_nl (String Py.nl (String Py.nl ("A" +:+ String Py.nl (String Py.nl ""))))
  = "A".
Proof. reflexivity. Qed.

Example re_sub_spaces :
  Py.re_sub "A;  B;C; " = "A;" +:+ String Py.nl ("B;C;" +:+ String Py.nl "").
Proof. reflexivity. Qed.

Example re_sub_separators :
  Py.re_sub ("a;" +:+ String "028" (String "133" (String "160" "b")))
  = "a;" +:+ String Py.nl "b".
Proof. reflexivity. Qed.

Example split_three :
  Py.split_semi_nl ("A;" +:+ String Py.nl (";" +:+ String Py.nl "B"))
  = ["A"; ""; "B"].
Proof. reflexivity. Qed.

Example contains_select : Py.contains "SELECT" "SELECT 0" = true.
Proof. reflexivity. Qed.

Example contains_insert : Py.contains "SELECT" "INSERT 0 1" = false.
Proof. reflexivity. Qed.

(** ** Splitting and joining *)

Section SplitJoin.

Lemma split_semi_nl_cons (s : string) :
  ∃ p ps, Py.split_semi_nl s = p :: ps.
Proof.
  destruct s as [|a [|b s]].
  - simpl; eauto.
  - simpl; eauto.
  - change (Py.split_semi_nl (String a (String b s)))
      with (if Ascii.eqb a Py.semi && Ascii.eqb b Py.nl
            then "" :: Py.split_semi_nl s
            else Py.cons_piece a (Py.split_semi_nl (String b s))).
    destruct (Ascii.eqb a Py.semi && Ascii.eqb b Py.nl); [eauto|].
    generalize (Py.split_semi_nl (String b s)).
    intros [|piece pieces]; simpl; eauto.
Qed.

Lemma split_semi_nl_step (a b : ascii) (s : string) :
  Py.split_semi_nl (String a (String b s))
  = if Ascii.eqb a Py.semi && Ascii.eqb b Py.nl
    then "" :: Py.split_semi_nl s
    else Py.cons_piece a (Py.split_semi_nl (String b s)).
Proof. reflexivity. Qed.

Lemma join_cons_piece (a : ascii) (p : string) (ps : list string) :
  Py.join_semi_nl (Py.cons_piece a (p :: ps))
  = String a (Py.join_semi_nl (p :: ps)).
Proof. destruct ps; reflexivity. Qed.

Lemma join_empty_head (p : string) (ps : list string) :
  Py.join_semi_nl ("" :: p :: ps)
  = String Py.semi (String Py.nl (Py.join_semi_nl (p :: ps))).
Proof. reflexivity. Qed.

(** Joining the pieces of a split gives the string back.  The split looks
    two characters ahead, so the induction carries the statement for the
    string and for the string with one more character in front. *)
Lemma join_split_step (s : string) :
  Py.join_semi_nl (Py.split_semi_nl s) = s ∧
  ∀ a, Py.join_semi_nl (Py.split_semi_nl (String a s)) = String a s.
Proof.
  induction s as [|b s [IH1 IH2]].
  - split; [reflexivity | intros a; reflexivity].
  - split; [apply IH2 |].
    intros a. rewrite split_semi_nl_step.
    destruct (Ascii.eqb a Py.semi && Ascii.eqb b Py.nl) eqn:E.
    + apply andb_true_iff in E as [Ea Eb].
      apply Ascii.eqb_eq in Ea, Eb. subst a b.
      destruct (split_semi_nl_cons s) as (p & ps & Hs).
      rewrite Hs, join_empty_head, <- Hs, IH1. reflexivity.
    + destruct (split_semi_nl_cons (String b s)) as (p & ps & Hs).
      rewrite Hs, join_cons_piece, <- Hs, IH2. reflexivity.
Qed.

Lemma join_split (s : string) :
  Py.join_semi_nl (Py.split_semi_nl s) = s.
Proof. apply join_split_step. Qed.




Lemma nonempty_all (pieces : list string) :
  Forall (λ piece, piece ≠ "") pieces → Py.nonempty pieces = pieces.
Proof.
  induction 1 as [|piece pieces Hp _ IH]; [reflexivity|].
  unfold Py.nonempty in *. simpl. rewrite IH.
  destruct piece; [contradiction | reflexivity].
Qed.

End SplitJoin.

(** C5, as amended.  For a statement file whose trimmed content is not
    empty: joining the statements of the resolver with [;] and a line break
    gives the trimmed content in which every [;] that is followed by white
    space has had that white space replaced by one line break, provided the
    split of that text has no empty piece; and it gives the trimmed content
    itself when that replacement leaves the content as it is. *)
Theorem rejoin_statements (query raw : string) :
  let content := Py.strip_nl raw in
  Py.truthy content = true →
  Forall (λ piece, piece ≠ "") (Py.split_semi_nl (Py.re_sub content)) →
  Py.join_semi_nl (statements_of query content) = Py.re_sub content ∧
  (Py.re_sub content = content →
   Py.join_semi_nl (statements_of query content) = content).
Proof.
  intros content Hne Hpieces.
  assert (H : Py.join_semi_nl (statements_of query content)
              = Py.re_sub content).
  { unfold statements_of, split_statements.
    rewrite Hne, (nonempty_all _ Hpieces). apply join_split. }
  split; [exact H|]. intros Hfix. by rewrite H.
Qed.

Lemma rejoin_statements_witness :
  Py.truthy (Py.strip_nl two_inserts) = true ∧
  Py.join_semi_nl (statements_of "batch.sql" (Py.strip_nl two_inserts))
  = Py.strip_nl two_inserts.
Proof.
  split; [reflexivity|].
  refine (proj2 (rejoin_statements "batch.sql" two_inserts eq_refl _) eq_refl).
  repeat constructor; discriminate.
Defined.

(** C5, as stated, fails on a file written on one line: the statements,
    joined again, are neither the trimmed content nor the content after the
    replacement of the white space. *)
Lemma rejoin_one_line_file :
  let content := Py.strip_nl inserts_on_one_line in
  let statements := statements_of "batch.sql" content in
  content = inserts_on_one_line ∧
  statements = [insert_1; insert_2] ∧
  Py.join_semi_nl statements = insert_1 +:+ ";" +:+ line_break +:+ insert_2 ∧
  Py.join_semi_nl statements ≠ content ∧
  Py.join_semi_nl statements ≠ Py.re_sub content.
Proof.
  intros content statements. split_and!; try reflexivity; discriminate.
Qed.

(** ** Reasoning about runs *)

Section Runs.
Context {A B : Type}.

Lemma bind_stop (m : run A) (k : A → run B) (s : stop) :
  ending m = inl s → m ≫= k = (trace m, inl s).
Proof. destruct m as [tr [s'|x]]; simpl; congruence. Qed.

Lemma bind_value (m : run A) (k : A → run B) (x : A) :
  ending m = inr x →
  m ≫= k = ((trace m ++ trace (k x))%list, ending (k x)).
Proof. destruct m as [tr [s'|x']]; simpl; intros [= ->]; reflexivity. Qed.

Lemma emit_then (e : event) (m : run B) :
  (emit e ;; m) = (e :: trace m, ending m).
Proof. reflexivity. Qed.

Lemma run_eta (m : run A) : m = (trace m, ending m).
Proof. destruct m; reflexivity. Qed.

End Runs.

Lemma submitted_app (tr1 tr2 : list event) :
  submitted (tr1 ++ tr2) = (submitted tr1 ++ submitted tr2)%list.
Proof. apply omap_app. Qed.

Lemma log_writes_app (tr1 tr2 : list event) :
  log_writes (tr1 ++ tr2) = (log_writes tr1 ++ log_writes tr2)%list.
Proof. apply omap_app. Qed.

(** ** The executor loop of [impala_query] *)

Lemma mem_elem_of (x : string) (l : list string) :
  Py.mem x l = true ↔ x ∈ l.
Proof.
  unfold Py.mem. rewrite existsb_exists, list_elem_of_In.
  split.
  - intros (y & Hy & E). apply String.eqb_eq in E. by subst.
  - intros H. exists x. split; [done | apply String.eqb_refl].
Qed.


Lemma submitted_executed (args : arguments) (qs : list string) :
  submitted (flat_map (executed args) qs) = qs.
Proof. induction qs as [|q qs IH]; simpl; [done | by rewrite IH]. Qed.

Lemma log_writes_executed (args : arguments) (qs : list string) :
  log_writes (flat_map (executed args) qs)
  = List.map (λ q, Py.add q line_break) qs.
Proof. induction qs as [|q qs IH]; simpl; [done | by rewrite IH]. Qed.

Lemma add_line_break_inj (x y : string) :
  Py.add x line_break = Py.add y line_break → x = y.
Proof.
  revert y. induction x as [|a x IH]; intros [|b y]; simpl; intros H.
  - done.
  - injection H as _ H. by destruct y.
  - injection H as _ H. by destruct x.
  - injection H as -> H. f_equal. by apply IH.
Qed.

Lemma occurrences_to_run (already queries : list string) (x : string) :
  x ∉ already → occurrences x (to_run already queries) = occurrences x queries.
Proof.
  intros Hx. unfold occurrences, to_run.
  induction queries as [|q queries IH]; simpl; [done|].
  destruct (Py.mem q already) eqn:Hq; simpl.
  - destruct (String.eqb x q) eqn:E; [|done].
    apply String.eqb_eq in E. subst q.
    apply mem_elem_of in Hq. contradiction.
  - destruct (String.eqb x q); simpl; by rewrite IH.
Qed.

Lemma occurrences_records (x : string) (qs : list string) :
  occurrences (Py.add x line_break) (List.map (λ q, Py.add q line_break) qs)
  = occurrences x qs.
Proof.
  unfold occurrences. induction qs as [|q qs IH]; simpl; [done|].
  destruct (String.eqb x q) eqn:E.
  - apply String.eqb_eq in E. subst q.
    rewrite String.eqb_refl. simpl. by rewrite IH.
  - destruct (String.eqb (Py.add x line_break) (Py.add q line_break)) eqn:E';
      [|done].
    apply String.eqb_eq, add_line_break_inj in E'. subst q.
    by rewrite String.eqb_refl in E.
Qed.

Section Loop.
Context {R : Type} (env : environment R).
Context (already : list string) (args : arguments).

(** The loop either works through every statement the filter lets
    through, or stops at the first one the driver rejects. *)
Lemma run_queries_shape (queries hist : list string) (cur : cursor R) :
  let r := run_queries env already args hist cur queries in
  (∃ cur', ending r = inr cur' ∧
           trace r = flat_map (executed args) (to_run already queries))
  ∨
  (∃ done q rest,
      to_run already queries = (done ++ q :: rest)%list ∧
      trace r = (flat_map (executed args) done ++ [EvExecute q args])%list ∧
      ending r = inl (FailJson (StatementExecutionFailed (Some q) args))).
Proof.
  revert hist cur.
  induction queries as [|q rest IH]; intros hist cur; simpl.
  - left. eauto.
  - unfold to_run. simpl. fold (to_run already rest).
    destruct (Py.mem q already); simpl; [apply IH|].
    unfold trace, ending in *.
    destruct (execute env hist q args) as [cur'|]; simpl.
    + destruct (IH (hist ++ [q])%list cur')
        as [(c & He & Ht) | (done & q' & rest' & Hr & Ht & He)].
      * left. exists c. by rewrite He, Ht.
      * right. exists (q :: done), q', rest'.
        by rewrite Hr, Ht, He.
    + right. by exists [], q, (to_run already rest).
Qed.

(** What the shape of the loop says about the statements submitted and the
    records written: the records are those of a prefix [done] of the
    statements let through, and the submitted statements are [done], plus
    the rejected statement when there is one. *)
Lemma run_queries_summary (queries hist : list string) (cur : cursor R) :
  let r := run_queries env already args hist cur queries in
  ∃ done rest,
    to_run already queries = (done ++ rest)%list ∧
    log_writes (trace r) = List.map (λ q, Py.add q line_break) done ∧
    ((statement_failed (ending r) = false ∧ rest = [] ∧
      submitted (trace r) = done)
     ∨
     (∃ q rest', rest = q :: rest' ∧ statement_failed (ending r) = true ∧
                 submitted (trace r) = (done ++ [q])%list)).
Proof.
  intros r.
  destruct (run_queries_shape queries hist cur)
    as [(c & He & Ht) | (done & q & rest & Hr & Ht & He)]; fold r in He, Ht.
  - exists (to_run already queries), [].
    rewrite Ht, He, app_nil_r, log_writes_executed, submitted_executed.
    split_and!; [done..|]. left. done.
  - exists done, (q :: rest).
    rewrite Ht, He, log_writes_app, submitted_app, log_writes_executed,
      submitted_executed, app_nil_r.
    split_and!; [done..|]. right. by exists q, rest.
Qed.

End Loop.

(** ** The result reporters submit no statement and leave the log alone *)

Lemma impala_report_quiet env p cur :
  submitted (trace (impala_report env p cur)) = [].
Proof.
  unfold impala_report.
  destruct (0 <? rowcount cur); [|reflexivity].
  simpl. destruct (shape_results cur) as [results|]; [|done].
  simpl. by destruct (json_writable results).
Qed.

Lemma impala_report_no_write env p cur :
  log_writes (trace (impala_report env p cur)) = [].
Proof.
  unfold impala_report.
  destruct (0 <? rowcount cur); [|reflexivity].
  simpl. destruct (shape_results cur) as [results|]; [|done].
  simpl. by destruct (json_writable results).
Qed.

Lemma impala_report_no_statement_failure env p cur :
  statement_failed (ending (impala_report env p cur)) = false.
Proof.
  unfold impala_report.
  destruct (0 <? rowcount cur); [|reflexivity].
  simpl. destruct (shape_results cur) as [results|]; [|done].
  simpl. by destruct (json_writable results).
Qed.

(** ** Runs of [impala_query] that read their statements from a file *)

Lemma ansible_module_ok (p : params) :
  positional_args p = None ∨ named_args p = None →
  ansible_module p = mret tt.
Proof.
  unfold ansible_module.
  intros [H|H]; rewrite H; [done|]. by destruct (positional_args p).
Qed.

Section ImpalaFileRun.
Context (env : environment impala_row) (p : params).
Context (path raw logpath : string).

(** The run gets as far as the executor loop. *)
Hypothesis Hsetup : impala_file_setup env p path raw logpath.

(** The content of the log when the run opens it. *)
Local Abbreviation log := (default "" (files env !! logpath)).
(** The statements the resolver produces. *)
Local Abbreviation batch := (statements_of path (Py.strip_nl raw)).
Local Abbreviation loop :=
  (run_queries env (already_ran_queries log) (prepare_args p) []
     (fresh_cursor env) batch).

Lemma impala_main_file_run :
  impala_main env p =
    (([EvConnect; EvReadFile path; EvOpenLog logpath] ++ trace loop ++
      match ending loop with
      | inr cur => EvLogClose :: trace (impala_report env p cur)
      | inl _ => []
      end)%list,
     match ending loop with
     | inr cur => ending (impala_report env p cur)
     | inl s => inl s
     end).
Proof.
  destruct Hsetup as [Hexclusive Hdriver Hconnect Hquery Hsql Hfile
                        Hlogpath Hlogname Hlogopen].
  unfold impala_main, require_driver, connect, get_query, read_query_file,
    open_query_log, resolve_queries.
  rewrite (ansible_module_ok p Hexclusive), Hdriver, Hconnect, Hquery.
  simpl. rewrite Hsql. simpl. rewrite Hfile, Hlogpath, Hlogname. simpl.
  rewrite Hlogopen. simpl.
  generalize loop. intros [tr [s|cur]]; [|reflexivity].
  cbn. by rewrite app_nil_r.
Qed.

Lemma impala_file_run_submitted :
  submitted (trace (impala_main env p)) = submitted (trace loop).
Proof.
  rewrite impala_main_file_run. unfold trace at 1. simpl.
  rewrite submitted_app.
  destruct (ending loop) as [s|cur]; simpl.
  - apply app_nil_r.
  - by rewrite impala_report_quiet, app_nil_r.
Qed.

Lemma impala_file_run_log_writes :
  log_writes (trace (impala_main env p)) = log_writes (trace loop).
Proof.
  rewrite impala_main_file_run. unfold trace at 1. simpl.
  rewrite log_writes_app.
  destruct (ending loop) as [s|cur]; simpl.
  - apply app_nil_r.
  - by rewrite impala_report_no_write, app_nil_r.
Qed.

Lemma impala_file_run_statement_failed :
  statement_failed (ending (impala_main env p))
  = statement_failed (ending loop).
Proof.
  rewrite impala_main_file_run. unfold ending at 1. simpl.
  destruct (ending loop) as [s|cur]; [done|].
  apply impala_report_no_statement_failure.
Qed.


(** C3, as amended.  In an Impala run over a statement file that completes
    with [module.exit_json], a statement of the batch whose text is not in
    the replay log at the start is submitted, and its record appended to the
    log, once for each of its occurrences in the batch: at least once, and
    exactly once when it occurs once in the batch. *)
Theorem appended_once_per_occurrence (o : output shaped_row) (q : string) :
  let r := impala_main env p in
  ending r = inr o →
  q ∈ batch →
  q ∉ already_ran_queries log →
  times_appended q (trace r) = occurrences q batch ∧
  occurrences q (submitted (trace r)) = occurrences q batch ∧
  (1 ≤ occurrences q batch)%nat.
Proof.
  intros r Hexit Hq Hnew. subst r.
  assert (Hok : statement_failed (ending (impala_main env p)) = false)
    by by rewrite Hexit.
  unfold times_appended.
  rewrite impala_file_run_statement_failed in Hok.
  rewrite impala_file_run_submitted, impala_file_run_log_writes.
  destruct (run_queries_summary env (already_ran_queries log)
              (prepare_args p) batch [] (fresh_cursor env))
    as (done & rest & Hrun & Hlog & Hsub).
  destruct Hsub as [(_ & -> & Hs) | (q' & rest' & _ & Hf & _)]; [|congruence].
  rewrite app_nil_r in Hrun. subst done.
  rewrite Hlog, Hs, occurrences_records, occurrences_to_run by done.
  split_and!; [done..|].
  unfold occurrences. clear -Hq.
  induction Hq as [q l | q q' l Hq IH]; simpl.
  - rewrite String.eqb_refl. simpl. lia.
  - destruct (String.eqb q q'); simpl; lia.
Qed.

(** The records a run writes: one per statement executed with success, made
    of the statement and a line break. *)
Lemma log_records_of_file_run :
  ∃ done rest,
    to_run (already_ran_queries log) batch = (done ++ rest)%list ∧
    log_writes (trace (impala_main env p))
    = List.map (λ q, Py.add q line_break) done ∧
    (statement_failed (ending (impala_main env p)) = false → rest = []).
Proof.
  rewrite impala_file_run_log_writes, impala_file_run_statement_failed.
  destruct (run_queries_summary env (already_ran_queries log)
              (prepare_args p) batch [] (fresh_cursor env))
    as (done & rest & Hrun & Hlog & Hsub).
  exists done, rest. split_and!; [done..|].
  destruct Hsub as [(_ & -> & _) | (q' & rest' & _ & Hf & _)]; [done|].
  congruence.
Qed.

End ImpalaFileRun.

Lemma batch_host_setup (content : string) (log : option string) :
  impala_file_setup (batch_host content log) batch_task
    "batch.sql" content "ran.log".
Proof.
  split; try reflexivity.
  - by left.
  - unfold batch_host, batch_host_leaving, impala_host. simpl.
    apply lookup_insert_eq.
Qed.



Lemma appended_once_per_occurrence_witness :
  let env := batch_host two_inserts None in
  let r := impala_main env batch_task in
  impala_file_setup env batch_task "batch.sql" two_inserts "ran.log" ∧
  times_appended insert_1 (trace r) = 1%nat.
Proof.
  intros env r.
  assert (Hsetup : impala_file_setup env batch_task "batch.sql" two_inserts
                     "ran.log").
  { split; try reflexivity. by left. }
  split; [exact Hsetup|].
  refine (proj1 (appended_once_per_occurrence env batch_task "batch.sql"
                   two_inserts "ran.log" Hsetup _ insert_1 eq_refl _ _)).
  - apply list_elem_of_here.
  - apply not_elem_of_nil.
Defined.

(** C3, as stated, fails: a statement that is not in the log and occurs
    twice in the batch is appended twice by a run that completes. *)
Lemma statement_repeated_in_batch_appended_twice :
  let env := batch_host insert_repeated None in
  let r := impala_main env batch_task in
  (∃ o, ending r = inr o) ∧
  statements_of "batch.sql" (Py.strip_nl insert_repeated)
    = [insert_1; insert_1; insert_2 +:+ ";"] ∧
  already_ran_queries "" = [] ∧
  times_appended insert_1 (trace r) = 2%nat ∧
  times_appended insert_1 (trace r) ≠ 1%nat.
Proof.
  intros env r. split_and!.
  - eexists. reflexivity.
  - reflexivity.
  - reflexivity.
  - reflexivity.
  - discriminate.
Qed.

(** C2.  The run over [two_inserts] with an empty log: the record written
    for a statement is the statement and a line break, without the
    semicolon that [already_ran_queries] splits on.  Read back, the two
    records are one entry, and a second run over the same file submits both
    statements again. *)
Theorem log_record_has_no_semicolon :
  let r := impala_main (batch_host two_inserts None) batch_task in
  let log := log_after "" (trace r) in
  let again := impala_main (batch_host two_inserts (Some log)) batch_task in
  submitted (trace r) = [insert_1; insert_2 +:+ ";"] ∧
  log_writes (trace r)
    = [insert_1 +:+ line_break; insert_2 +:+ ";" +:+ line_break] ∧
  log_writes (trace r) ≠ List.map terminated_record (submitted (trace r)) ∧
  already_ran_queries log = [insert_1 +:+ line_break +:+ insert_2 +:+ ";"] ∧
  submitted (trace again) = [insert_1; insert_2 +:+ ";"].
Proof.
  intros r log again. split_and!; try reflexivity. discriminate.
Qed.

(** ** Runs of [postgresql_query] *)

Lemma transaction_events_app (tr1 tr2 : list event) :
  transaction_events (tr1 ++ tr2)
  = (transaction_events tr1 ++ transaction_events tr2)%list.
Proof. apply List.filter_app. Qed.

(** A run of [postgresql_query] either stops before it submits anything, or
    gets to submit one statement [q]; what follows is decided by the
    driver's answer. *)
Lemma postgresql_main_shape (env : environment pg_row) (p : params) :
  let r := postgresql_main env p in
  (∃ s, ending r = inl s ∧ submitted (trace r) = [] ∧
        transaction_events (trace r) = [])
  ∨
  (∃ pre q, submitted pre = [] ∧ transaction_events pre = [] ∧
     r = match execute env [] q (prepare_args p) with
         | None =>
             ((pre ++ [EvExecute q (prepare_args p)])%list,
              inl (FailJson (StatementExecutionFailed None (prepare_args p))))
         | Some cur =>
             ((pre ++ EvExecute q (prepare_args p)
                   :: trace (postgresql_report env p cur))%list,
              ending (postgresql_report env p cur))
         end).
Proof.
  unfold postgresql_main, ansible_module, require_driver, connect, get_query,
    read_query_file.
  destruct (positional_args p), (named_args p); simpl;
    try (left; eexists; split_and!; reflexivity).
  all: destruct (has_driver env); simpl;
    try (left; eexists; split_and!; reflexivity).
  all: destruct (connect_ok env); simpl;
    try (left; eexists; split_and!; reflexivity).
  all: destruct (query p) as [q|]; simpl;
    try (left; eexists; split_and!; reflexivity).
  all: destruct (Py.endswith q ".sql"); simpl.
  all: lazymatch goal with
       | |- context [files _ !! ?path] =>
           destruct (files env !! path) as [raw|]; simpl;
           [right; exists [EvConnect; EvReadFile path], (Py.strip_nl raw)
           |left; eexists; split_and!; reflexivity]
       | |- _ => right; exists [EvConnect], q
       end.
  all: split_and!; try reflexivity.
  all: destruct (execute env [] _ _) as [cur|]; simpl; try reflexivity.
  all: by destruct (postgresql_report env p cur).
Qed.

(** ** The result reporters *)

Lemma postgresql_report_no_rows (env : environment pg_row) (p : params)
    (cur : cursor pg_row) :
  rowcount cur ≤ 0 →
  ending (postgresql_report env p cur)
  = inl (Raise (UnboundLocalError "ansible_facts")).
Proof.
  intros Hcount. unfold postgresql_report.
  destruct (0 <? rowcount cur) eqn:E; [apply Z.ltb_lt in E; lia|].
  simpl.
  destruct (negb (Py.contains "SELECT" (statusmessage cur)));
    [destruct (check_mode env)|]; reflexivity.
Qed.

Lemma postgresql_report_exit (env : environment pg_row) (p : params)
    (cur : cursor pg_row) (o : output pg_row) :
  ending (postgresql_report env p cur) = inr o →
  0 < rowcount cur ∧
  fetchall cur ≠ OtherError ∧
  query_results o
    = match fetchall cur with Rows rows => rows | _ => [] end ∧
  ansible_facts o = {[ fact p := query_results o ]} ∧
  rowcount_out o = Z.of_nat (List.length (query_results o)) ∧
  stout_lines o = statusmessage cur ∧
  changed o = negb (Py.contains "SELECT" (statusmessage cur)) ∧
  transaction_events (trace (postgresql_report env p cur))
    = if changed o
      then if check_mode env then [EvRollback] else [EvCommit]
      else [].
Proof.
  unfold postgresql_report.
  destruct (0 <? rowcount cur) eqn:E; simpl.
  - apply Z.ltb_lt in E.
    destruct (fetchall cur) as [rows| |]; simpl;
      destruct (negb (Py.contains "SELECT" (statusmessage cur)));
      try destruct (check_mode env); simpl; intros [= <-]; simpl;
      split_and!; done.
  - destruct (negb (Py.contains "SELECT" (statusmessage cur)));
      try destruct (check_mode env); simpl; discriminate.
Qed.

Lemma shape_results_fetch_error (cur : cursor impala_row) :
  fetchall cur = ProgrammingError → shape_results cur = None.
Proof. unfold shape_results. by intros ->. Qed.

Lemma impala_report_fetch_failure (env : environment impala_row)
    (p : params) (cur : cursor impala_row) :
  0 < rowcount cur →
  shape_results cur = None →
  impala_report env p cur = ([EvFetchAll], inl (Raise (NameError "impala"))).
Proof.
  intros Hcount Hshape. unfold impala_report.
  apply Z.ltb_lt in Hcount. rewrite Hcount. simpl. by rewrite Hshape.
Qed.

Lemma impala_report_exit (env : environment impala_row) (p : params)
    (cur : cursor impala_row) (o : output shaped_row) :
  ending (impala_report env p cur) = inr o →
  changed o = true ∧
  stout_lines o = statusmessage cur ∧
  rowcount_out o = Z.of_nat (List.length (query_results o)) ∧
  (0 < rowcount cur → shape_results cur = Some (query_results o)) ∧
  (rowcount cur ≤ 0 → query_results o = []) ∧
  (query_results o ≠ [] →
   ansible_facts o = match fact p with
                     | Some name => {[ Some name := query_results o ]}
                     | None => ∅
                     end) ∧
  json_writable (query_results o) = true ∧
  transaction_events (trace (impala_report env p cur)) = [EvCommit].
Proof.
  unfold impala_report.
  destruct (0 <? rowcount cur) eqn:E; simpl.
  - apply Z.ltb_lt in E.
    destruct (shape_results cur) as [results|]; simpl; [|discriminate].
    destruct (json_writable results) eqn:Hw; simpl; [|discriminate].
    intros [= <-]; simpl. split_and!; try done. lia.
  - apply Z.ltb_ge in E. intros [= <-]; simpl. split_and!; try done. lia.
Qed.

(** ** What [module.exit_json] can write of the rows of [impala_query] *)

Lemma json_writable_spec (results : list shaped_row) :
  json_writable results = true ↔ Forall (λ row, row = ∅) results.
Proof.
  unfold json_writable. induction results as [|row results IH]; simpl.
  - split; [constructor | done].
  - rewrite andb_true_iff, IH, Forall_cons, bool_decide_eq_true. done.
Qed.

(** A shaped row has a key as soon as the description has an entry. *)
Lemma shape_row_keys (desc : list column) (row : impala_row) :
  ∀ idx acc m,
    shape_row idx desc row acc = Some m → (m = ∅ ↔ desc = [] ∧ acc = ∅).
Proof.
  induction desc as [|c desc IH]; intros idx acc m; simpl.
  - intros [= <-]. split; [done | by intros [_ ?]].
  - destruct (row !! idx) as [v|]; [|done].
    intros H. rewrite (IH _ _ _ H). split; [|by intros [? _]].
    intros [_ Hins]. by apply insert_non_empty in Hins.
Qed.

(** The shaped rows can be written exactly when there is none, or when the
    description has no entry. *)
Lemma shape_results_writable (cur : cursor impala_row)
    (results : list shaped_row) :
  shape_results cur = Some results →
  json_writable results = true ↔ results = [] ∨ description cur = Some [].
Proof.
  unfold shape_results.
  destruct (fetchall cur) as [rows| |]; [|done..].
  destruct rows as [|row rows].
  { intros [= <-]. split; [by left | done]. }
  destruct (description cur) as [desc|]; [|done].
  intros H. apply mapM_Some in H.
  destruct desc as [|c desc].
  - split; [by right | intros _].
    apply json_writable_spec.
    induction H as [|r m rs ms Hr _ IH]; constructor; [|done].
    simpl in Hr. by injection Hr as <-.
  - inversion H as [|r m rs ms Hr Hrest]; subst.
    assert (Hm : m ≠ ∅).
    { intros Hm. by apply (shape_row_keys _ _ _ _ _ Hr) in Hm as [? _]. }
    split.
    + intros Hw. apply json_writable_spec, Forall_cons in Hw as [? _]. done.
    + intros [? | ?]; done.
Qed.

(** The reporter after a statement with a positive row count whose rows
    could be fetched and shaped. *)
Lemma impala_report_rows (env : environment impala_row) (p : params)
    (cur : cursor impala_row) (results : list shaped_row) :
  0 < rowcount cur →
  shape_results cur = Some results →
  impala_report env p cur
  = ([EvFetchAll; EvCommit; EvCloseDb],
     if json_writable results
     then inr {| changed := true;
                 stout_lines := statusmessage cur;
                 query_results := results;
                 ansible_facts := match fact p with
                                  | Some name => {[ Some name := results ]}
                                  | None => ∅
                                  end;
                 rowcount_out := Z.of_nat (List.length results) |}
     else inl (Raise TypeError)).
Proof.
  intros Hcount Hshape. unfold impala_report.
  apply Z.ltb_lt in Hcount. rewrite Hcount. simpl. rewrite Hshape. simpl.
  by destruct (json_writable results).
Qed.

(** A run of [impala_query] that ends with [module.exit_json] went through
    the executor loop over a statement file. *)
Lemma impala_main_exit_setup (env : environment impala_row) (p : params)
    (o : output shaped_row) :
  ending (impala_main env p) = inr o →
  ∃ path raw logpath, impala_file_setup env p path raw logpath.
Proof.
  unfold impala_main, ansible_module, require_driver, connect, get_query,
    read_query_file, open_query_log, resolve_queries.
  destruct (positional_args p) eqn:Hp, (named_args p) eqn:Hn; simpl;
    try discriminate.
  all: destruct (has_driver env) eqn:Hd; simpl; try discriminate.
  all: destruct (connect_ok env) eqn:Hc; simpl; try discriminate.
  all: destruct (query p) as [q|] eqn:Hq; simpl; try discriminate.
  all: destruct (Py.endswith q ".sql") eqn:Hs; simpl.
  all: try destruct (files env !! q) as [raw|] eqn:Hf; simpl;
    try discriminate.
  all: destruct (query_log p) as [logpath|] eqn:Hl; simpl; try discriminate.
  all: destruct (Py.truthy logpath) eqn:Ht; simpl; try discriminate.
  all: destruct (appendable env logpath) eqn:Ha; simpl; try discriminate.
  all: intros _; exists q, raw, logpath; split; auto.
Qed.

(** ** The query source resolver *)

Ltac start_module H :=
  destruct H as [Hexclusive Hdriver Hconnect Hquery];
  unfold postgresql_main, impala_main, require_driver, connect, get_query,
    read_query_file, open_query_log, resolve_queries;
  rewrite (ansible_module_ok _ Hexclusive), Hdriver, Hconnect, Hquery;
  simpl.

(** [postgresql_query] hands a [query] that is not a file name to the
    executor as it is, as the only statement of the run. *)
Lemma postgresql_literal_query (env : environment pg_row) (p : params)
    (q : string) :
  module_started env p q →
  Py.endswith q ".sql" = false →
  submitted (trace (postgresql_main env p)) = [q].
Proof.
  intros Hstart Hsql. start_module Hstart. rewrite Hsql. simpl.
  destruct (execute env [] q (prepare_args p)) as [cur|]; simpl; [|done].
  unfold postgresql_report.
  destruct (0 <? rowcount cur); simpl;
    [destruct (fetchall cur); simpl|];
    destruct (negb (Py.contains "SELECT" (statusmessage cur)));
    try destruct (check_mode env); reflexivity.
Qed.

(** C4.  A [query] that does not end in ['.sql']: [postgresql_query]
    submits it as the one statement of the run; [impala_query], once the
    log is open, reads the local [sql_file] that only the ['.sql'] branch
    binds, and the run ends with [UnboundLocalError] before any statement
    is submitted. *)
Theorem literal_query_resolution :
  (∀ (env : environment pg_row) (p : params) (q : string),
     module_started env p q →
     Py.endswith q ".sql" = false →
     submitted (trace (postgresql_main env p)) = [q])
  ∧
  (∀ (env : environment impala_row) (p : params) (q logpath : string),
     module_started env p q →
     Py.endswith q ".sql" = false →
     query_log p = Some logpath →
     Py.truthy logpath = true →
     appendable env logpath = true →
     impala_main env p
     = ([EvConnect; EvOpenLog logpath],
        inl (Raise (UnboundLocalError "sql_file")))
     ∧ submitted (trace (impala_main env p)) = []).
Proof.
  split; [apply postgresql_literal_query|].
  intros env p q logpath Hstart Hsql Hlog Hname Hopen.
  assert (H : impala_main env p
              = ([EvConnect; EvOpenLog logpath],
                 inl (Raise (UnboundLocalError "sql_file")))).
  { start_module Hstart. rewrite Hsql. simpl. rewrite Hlog, Hname. simpl.
    by rewrite Hopen. }
  by rewrite H.
Qed.

Lemma literal_query_resolution_witness :
  let p := task "SELECT 1" (Some "ran.log") in
  submitted (trace (postgresql_main (pg_host select_two_rows false) p))
  = ["SELECT 1"]
  ∧ ending (impala_main (impala_host ∅ impala_two_rows) p)
    = inl (Raise (UnboundLocalError "sql_file"))
  ∧ submitted (trace (impala_main (impala_host ∅ impala_two_rows) p)) = [].
Proof.
  intros p.
  assert (HP : module_started (pg_host select_two_rows false) p "SELECT 1").
  { split; try reflexivity. by left. }
  assert (HI : module_started (impala_host ∅ impala_two_rows) p "SELECT 1").
  { split; try reflexivity. by left. }
  destruct literal_query_resolution as [Hpg Himpala].
  split; [exact (Hpg _ p "SELECT 1" HP eq_refl)|].
  destruct (Himpala _ p "SELECT 1" "ran.log" HI eq_refl eq_refl eq_refl
              eq_refl) as [Hrun Hnone].
  split; [by rewrite Hrun | exact Hnone].
Defined.

(** C6, as amended.  When [query] names a ['.sql'] file that cannot be
    read, and the connection to the database opens, the run fails with the
    message that carries the path; the connection is attempted before the
    file is read, and nothing further is done (no statement is submitted;
    [impala_query] does not open its log).  In both modules. *)
Theorem unreadable_query_file :
  (∀ (env : environment pg_row) (p : params) (path : string),
     module_started env p path →
     Py.endswith path ".sql" = true →
     files env !! path = None →
     postgresql_main env p
     = ([EvConnect; EvReadFile path],
        inl (FailJson (SourceUnavailable path))))
  ∧
  (∀ (env : environment impala_row) (p : params) (path : string),
     module_started env p path →
     Py.endswith path ".sql" = true →
     files env !! path = None →
     impala_main env p
     = ([EvConnect; EvReadFile path],
        inl (FailJson (SourceUnavailable path)))).
Proof.
  split; intros env p path Hstart Hsql Hfile; start_module Hstart;
    rewrite Hsql; simpl; by rewrite Hfile.
Qed.

Lemma unreadable_query_file_witness :
  let p := task "missing.sql" (Some "ran.log") in
  postgresql_main (pg_host select_two_rows false) p
  = ([EvConnect; EvReadFile "missing.sql"],
     inl (FailJson (SourceUnavailable "missing.sql")))
  ∧ impala_main (impala_host ∅ impala_two_rows) p
    = ([EvConnect; EvReadFile "missing.sql"],
       inl (FailJson (SourceUnavailable "missing.sql"))).
Proof.
  intros p.
  assert (HP : module_started (pg_host select_two_rows false) p
                 "missing.sql").
  { split; try reflexivity. by left. }
  assert (HI : module_started (impala_host ∅ impala_two_rows) p
                 "missing.sql").
  { split; try reflexivity. by left. }
  destruct unreadable_query_file as [Hpg Himpala].
  split.
  - exact (Hpg _ p "missing.sql" HP eq_refl eq_refl).
  - exact (Himpala _ p "missing.sql" HI eq_refl eq_refl).
Defined.

(** C6, as stated, fails: the run over a missing file does fail with the
    path, but the connection has been attempted by then.  In both
    modules. *)
Lemma missing_file_fails_after_connect :
  let p := task "missing.sql" (Some "ran.log") in
  let pg := postgresql_main (pg_host select_two_rows false) p in
  let impala := impala_main (impala_host ∅ impala_two_rows) p in
  files (pg_host select_two_rows false) !! "missing.sql" = None ∧
  ending pg = inl (FailJson (SourceUnavailable "missing.sql")) ∧
  connection_attempted (trace pg) = true ∧
  ending impala = inl (FailJson (SourceUnavailable "missing.sql")) ∧
  connection_attempted (trace impala) = true.
Proof. intros p pg impala. split_and!; reflexivity. Qed.

(** ** Completed runs *)

Lemma postgresql_report_quiet (env : environment pg_row) (p : params)
    (cur : cursor pg_row) :
  submitted (trace (postgresql_report env p cur)) = [].
Proof.
  unfold postgresql_report.
  destruct (0 <? rowcount cur); simpl;
    [destruct (fetchall cur); simpl|];
    destruct (negb (Py.contains "SELECT" (statusmessage cur)));
    try destruct (check_mode env); reflexivity.
Qed.

(** The run of [postgresql_query] that submits [q] and gets the cursor
    [cur] back goes on with the result reporter. *)
Lemma postgresql_main_submitted (env : environment pg_row) (p : params)
    (q : string) (cur : cursor pg_row) :
  submitted (trace (postgresql_main env p)) = [q] →
  execute env [] q (prepare_args p) = Some cur →
  ∃ pre, transaction_events pre = [] ∧
         postgresql_main env p
         = ((pre ++ EvExecute q (prepare_args p)
                 :: trace (postgresql_report env p cur))%list,
            ending (postgresql_report env p cur)).
Proof.
  intros Hsub Hexec.
  destruct (postgresql_main_shape env p)
    as [(s & _ & Hnone & _) | (pre & q' & Hpre & Htx & Hrun)].
  - rewrite Hnone in Hsub. discriminate.
  - assert (q' = q) as ->.
    { rewrite Hrun in Hsub.
      destruct (execute env [] q' (prepare_args p)); unfold trace in Hsub;
        simpl in Hsub; rewrite submitted_app, Hpre in Hsub; simpl in Hsub;
        congruence. }
    rewrite Hexec in Hrun. by exists pre.
Qed.

Lemma postgresql_main_exit (env : environment pg_row) (p : params)
    (o : output pg_row) :
  ending (postgresql_main env p) = inr o →
  ∃ q cur,
    submitted (trace (postgresql_main env p)) = [q] ∧
    execute env [] q (prepare_args p) = Some cur ∧
    ending (postgresql_report env p cur) = inr o ∧
    transaction_events (trace (postgresql_main env p))
    = transaction_events (trace (postgresql_report env p cur)).
Proof.
  intros Hexit.
  destruct (postgresql_main_shape env p)
    as [(s & Hstop & _) | (pre & q & Hpre & Htx & Hrun)]; [congruence|].
  destruct (execute env [] q (prepare_args p)) as [cur|] eqn:Hexec;
    rewrite Hrun in Hexit |- *; [|discriminate].
  exists q, cur. unfold trace at 1 3. simpl.
  rewrite submitted_app, Hpre, transaction_events_app, Htx. simpl.
  by rewrite postgresql_report_quiet.
Qed.

Lemma impala_main_exit (env : environment impala_row) (p : params)
    (o : output shaped_row) :
  ending (impala_main env p) = inr o →
  ∃ cur, ending (impala_report env p cur) = inr o ∧
         transaction_events (trace (impala_main env p))
         = transaction_events (trace (impala_report env p cur)).
Proof.
  intros Hexit.
  destruct (impala_main_exit_setup env p o Hexit)
    as (path & raw & logpath & Hsetup).
  rewrite (impala_main_file_run env p path raw logpath Hsetup) in Hexit |- *.
  unfold ending at 1 in Hexit. unfold trace at 1. simpl in *.
  destruct (run_queries_shape env
              (already_ran_queries (default "" (files env !! logpath)))
              (prepare_args p)
              (statements_of path (Py.strip_nl raw)) [] (fresh_cursor env))
    as [(c & He & Ht) | (done & q & rest & _ & _ & He)];
    rewrite He in Hexit |- *; [|discriminate].
  exists c. split; [done|].
  rewrite Ht, transaction_events_app. simpl.
  assert (Hnone : ∀ qs, transaction_events
                          (flat_map (executed (prepare_args p)) qs) = []).
  { induction qs; simpl; done. }
  by rewrite Hnone.
Qed.

(** C7.  A run of [postgresql_query] whose statement leaves a row count of
    zero (a [SELECT] that matches nothing) does not complete: the call of
    [module.exit_json] reads the local [ansible_facts], which only the
    branch for a positive row count binds, and the run ends with
    [UnboundLocalError]. *)
Theorem no_rows_unbound_facts (env : environment pg_row) (p : params)
    (q : string) (cur : cursor pg_row) :
  submitted (trace (postgresql_main env p)) = [q] →
  execute env [] q (prepare_args p) = Some cur →
  rowcount cur ≤ 0 →
  ending (postgresql_main env p)
  = inl (Raise (UnboundLocalError "ansible_facts")).
Proof.
  intros Hsub Hexec Hcount.
  destruct (postgresql_main_submitted env p q cur Hsub Hexec)
    as (pre & _ & ->).
  by apply postgresql_report_no_rows.
Qed.

Lemma no_rows_unbound_facts_witness :
  let env := pg_host select_no_rows false in
  let p := task "SELECT * FROM t" None in
  Py.contains "SELECT" (statusmessage select_no_rows) = true ∧
  rowcount select_no_rows = 0 ∧
  postgresql_main env p
  = ([EvConnect; EvExecute "SELECT * FROM t" ArgNone; EvCloseDb],
     inl (Raise (UnboundLocalError "ansible_facts"))).
Proof.
  intros env p. split_and!; [reflexivity..|].
  rewrite (run_eta (postgresql_main env p)).
  rewrite (no_rows_unbound_facts env p "SELECT * FROM t" select_no_rows
             eq_refl eq_refl).
  - reflexivity.
  - simpl. lia.
Defined.

(** C8.  The fact mapping of a run with a result sequence that is not
    empty.  [postgresql_query]: a completed run reports
    [{fact: query_results}] whatever [fact] is, so without a fact name the
    mapping is not empty: it maps [None] to the sequence.  [impala_query]:
    when the rows of the last statement are fetched and shaped, and the
    description has an entry, the shaped rows are keyed by tuples, which
    [module.exit_json] cannot write: the run ends with [TypeError] and
    reports no mapping, with or without a fact name.  A run of
    [impala_query] completes with a result sequence that is not empty only
    when no shaped row has a key; its mapping is then the fact name mapped
    to the sequence, or empty without a fact name. *)
Theorem fact_mapping_of_completed_run :
  (∀ (env : environment pg_row) (p : params) (o : output pg_row),
     ending (postgresql_main env p) = inr o →
     ansible_facts o = {[ fact p := query_results o ]} ∧
     (fact p = None →
      ansible_facts o = {[ None := query_results o ]} ∧
      ansible_facts o ≠ ∅))
  ∧
  (∀ (env : environment impala_row) (p : params)
     (path raw logpath : string) (cur : cursor impala_row)
     (results : list shaped_row),
     impala_file_setup env p path raw logpath →
     ending (run_queries env
               (already_ran_queries (default "" (files env !! logpath)))
               (prepare_args p) [] (fresh_cursor env)
               (statements_of path (Py.strip_nl raw))) = inr cur →
     0 < rowcount cur →
     shape_results cur = Some results →
     results ≠ [] →
     description cur ≠ Some [] →
     ending (impala_main env p) = inl (Raise TypeError))
  ∧
  (∀ (env : environment impala_row) (p : params) (o : output shaped_row),
     ending (impala_main env p) = inr o →
     query_results o ≠ [] →
     Forall (λ row, row = ∅) (query_results o) ∧
     ansible_facts o = match fact p with
                       | Some name => {[ Some name := query_results o ]}
                       | None => ∅
                       end).
Proof.
  split_and!.
  - intros env p o Hexit.
    destruct (postgresql_main_exit env p o Hexit)
      as (q & cur & _ & _ & Hreport & _).
    destruct (postgresql_report_exit env p cur o Hreport)
      as (_ & _ & _ & Hfacts & _).
    split; [done|]. intros Hnone. rewrite Hfacts, Hnone.
    split; [done|]. apply map_non_empty_singleton.
  - intros env p path raw logpath cur results Hsetup Hloop Hcount Hshape
      Hrows Hdesc.
    rewrite (impala_main_file_run env p path raw logpath Hsetup).
    unfold ending at 1. cbn [snd]. rewrite Hloop.
    rewrite (impala_report_rows env p cur results Hcount Hshape).
    unfold ending. cbn [snd].
    destruct (json_writable results) eqn:Hw; [|done].
    apply (shape_results_writable cur results Hshape) in Hw as [? | ?]; done.
  - intros env p o Hexit Hrows.
    destruct (impala_main_exit env p o Hexit) as (cur & Hreport & _).
    destruct (impala_report_exit env p cur o Hreport)
      as (_ & _ & _ & _ & _ & Hfacts & Hw & _).
    split; [by apply json_writable_spec | by apply Hfacts].
Qed.

Lemma fact_mapping_of_completed_run_witness :
  let pg :=
    postgresql_main (pg_host select_two_rows false)
      (task "SELECT * FROM t" None) in
  let impala :=
    impala_main (batch_host_leaving impala_two_rows two_inserts None)
      (task_with_fact "batch.sql" (Some "ran.log") "my_key") in
  (∃ o, ending pg = inr o ∧
        query_results o = pg_two_rows ∧
        ansible_facts o = {[ None := pg_two_rows ]} ∧
        ansible_facts o ≠ ∅) ∧
  shape_results impala_two_rows = Some shaped_two_rows ∧
  ending impala = inl (Raise TypeError).
Proof.
  intros pg impala.
  destruct fact_mapping_of_completed_run as (Hpg & Himpala & _).
  split_and!.
  - eexists. split; [reflexivity|]. split; [reflexivity|].
    exact (proj2 (Hpg (pg_host select_two_rows false)
                    (task "SELECT * FROM t" None) _ eq_refl) eq_refl).
  - reflexivity.
  - apply (Himpala (batch_host_leaving impala_two_rows two_inserts None)
             (task_with_fact "batch.sql" (Some "ran.log") "my_key")
             "batch.sql" two_inserts "ran.log" impala_two_rows
             shaped_two_rows).
    + split; try reflexivity. by left.
    + reflexivity.
    + reflexivity.
    + reflexivity.
    + discriminate.
    + discriminate.
Defined.

(** C9.  The change flag of a completed run.  [postgresql_query]: the flag
    is false exactly when the status text of the statement contains
    [SELECT]; when it is true the transaction is rolled back in check mode
    and committed otherwise (and when it is false neither happens).
    [impala_query]: the flag is true and the transaction is committed. *)
Theorem change_flag_of_completed_run :
  (∀ (env : environment pg_row) (p : params) (o : output pg_row),
     ending (postgresql_main env p) = inr o →
     (∃ q cur, submitted (trace (postgresql_main env p)) = [q] ∧
               execute env [] q (prepare_args p) = Some cur ∧
               stout_lines o = statusmessage cur) ∧
     changed o = negb (Py.contains "SELECT" (stout_lines o)) ∧
     transaction_events (trace (postgresql_main env p))
     = if changed o
       then if check_mode env then [EvRollback] else [EvCommit]
       else [])
  ∧
  (∀ (env : environment impala_row) (p : params) (o : output shaped_row),
     ending (impala_main env p) = inr o →
     changed o = true ∧
     transaction_events (trace (impala_main env p)) = [EvCommit]).
Proof.
  split.
  - intros env p o Hexit.
    destruct (postgresql_main_exit env p o Hexit)
      as (q & cur & Hsub & Hexec & Hreport & ->).
    destruct (postgresql_report_exit env p cur o Hreport)
      as (_ & _ & _ & _ & _ & Hstatus & Hchanged & Htx).
    split_and!.
    + by exists q, cur.
    + by rewrite Hstatus.
    + done.
  - intros env p o Hexit.
    destruct (impala_main_exit env p o Hexit) as (cur & Hreport & ->).
    destruct (impala_report_exit env p cur o Hreport)
      as (Hchanged & _ & _ & _ & _ & _ & _ & Htx).
    done.
Qed.

Lemma change_flag_of_completed_run_witness :
  let select :=
    postgresql_main (pg_host select_two_rows false)
      (task "SELECT * FROM t" None) in
  let update :=
    postgresql_main (pg_host update_one_row true)
      (task "UPDATE t SET id = 3" None) in
  let impala := impala_main (batch_host two_inserts None) batch_task in
  (∃ o, ending select = inr o ∧ changed o = false ∧
        transaction_events (trace select) = []) ∧
  (∃ o, ending update = inr o ∧ changed o = true ∧
        transaction_events (trace update) = [EvRollback]) ∧
  (∃ o, ending impala = inr o ∧ changed o = true ∧
        transaction_events (trace impala) = [EvCommit]).
Proof.
  intros select update impala.
  destruct change_flag_of_completed_run as [Hpg Himpala].
  split_and!; (eexists; split; [reflexivity|]).
  - destruct (Hpg (pg_host select_two_rows false)
                (task "SELECT * FROM t" None) _ eq_refl)
      as (_ & Hchanged & Htx).
    split; [exact Hchanged | exact Htx].
  - destruct (Hpg (pg_host update_one_row true)
                (task "UPDATE t SET id = 3" None) _ eq_refl)
      as (_ & Hchanged & Htx).
    split; [exact Hchanged | exact Htx].
  - exact (Himpala (batch_host two_inserts None) batch_task _ eq_refl).
Defined.

Lemma postgresql_report_swallow (env : environment pg_row) (p : params)
    (cur : cursor pg_row) :
  0 < rowcount cur →
  fetchall cur = ProgrammingError →
  ∃ o, ending (postgresql_report env p cur) = inr o ∧
       query_results o = [] ∧ rowcount_out o = 0.
Proof.
  intros Hcount Hfetch. unfold postgresql_report.
  apply Z.ltb_lt in Hcount. rewrite Hcount, Hfetch. simpl.
  destruct (negb (Py.contains "SELECT" (statusmessage cur)));
    try destruct (check_mode env); simpl; eexists; split_and!; reflexivity.
Qed.

(** C10.  The row count that a completed run reports is the length of its
    result sequence, in both modules.  A statement with a positive row
    count and no result set to fetch: [postgresql_query] swallows the
    [ProgrammingError] and reports the row count 0 with an empty result
    sequence; [impala_query] does not get that far, because its handler
    names [impala.error.ProgrammingError] and the module binds no name
    [impala]: the run ends with [NameError] and reports nothing. *)
Theorem reported_row_count :
  (∀ (env : environment pg_row) (p : params) (o : output pg_row),
     ending (postgresql_main env p) = inr o →
     rowcount_out o = Z.of_nat (List.length (query_results o)))
  ∧
  (∀ (env : environment impala_row) (p : params) (o : output shaped_row),
     ending (impala_main env p) = inr o →
     rowcount_out o = Z.of_nat (List.length (query_results o)))
  ∧
  (∀ (env : environment pg_row) (p : params) (q : string)
     (cur : cursor pg_row),
     submitted (trace (postgresql_main env p)) = [q] →
     execute env [] q (prepare_args p) = Some cur →
     0 < rowcount cur →
     fetchall cur = ProgrammingError →
     ∃ o, ending (postgresql_main env p) = inr o ∧
          query_results o = [] ∧ rowcount_out o = 0)
  ∧
  (∀ (env : environment impala_row) (p : params) (path raw logpath : string)
     (cur : cursor impala_row),
     impala_file_setup env p path raw logpath →
     ending (run_queries env
               (already_ran_queries (default "" (files env !! logpath)))
               (prepare_args p) [] (fresh_cursor env)
               (statements_of path (Py.strip_nl raw))) = inr cur →
     0 < rowcount cur →
     fetchall cur = ProgrammingError →
     ending (impala_main env p) = inl (Raise (NameError "impala"))).
Proof.
  split_and!.
  - intros env p o Hexit.
    destruct (postgresql_main_exit env p o Hexit)
      as (q & cur & _ & _ & Hreport & _).
    by apply (postgresql_report_exit env p cur o Hreport).
  - intros env p o Hexit.
    destruct (impala_main_exit env p o Hexit) as (cur & Hreport & _).
    by apply (impala_report_exit env p cur o Hreport).
  - intros env p q cur Hsub Hexec Hcount Hfetch.
    destruct (postgresql_main_submitted env p q cur Hsub Hexec)
      as (pre & _ & ->).
    by apply postgresql_report_swallow.
  - intros env p path raw logpath cur Hsetup Hloop Hcount Hfetch.
    rewrite (impala_main_file_run env p path raw logpath Hsetup).
    unfold ending at 1. simpl. rewrite Hloop.
    rewrite impala_report_fetch_failure;
      [done | done | by apply shape_results_fetch_error].
Qed.

Lemma reported_row_count_witness :
  let pg :=
    postgresql_main (pg_host update_one_row false)
      (task "UPDATE t SET id = 3" None) in
  let impala :=
    impala_main (batch_host_leaving update_one_row two_inserts None)
      batch_task in
  (∃ o, ending pg = inr o ∧ query_results o = [] ∧ rowcount_out o = 0) ∧
  ending impala = inl (Raise (NameError "impala")).
Proof.
  intros pg impala.
  destruct reported_row_count as (_ & _ & Hpg & Himpala).
  split.
  - refine (Hpg (pg_host update_one_row false)
              (task "UPDATE t SET id = 3" None) "UPDATE t SET id = 3"
              update_one_row eq_refl eq_refl _ eq_refl).
    reflexivity.
  - refine (Himpala (batch_host_leaving update_one_row two_inserts None)
              batch_task "batch.sql" two_inserts "ran.log" update_one_row
              _ eq_refl _ eq_refl).
    + split; try reflexivity. by left.
    + reflexivity.
Defined.

(** * Further properties *)

(** ** [strip('\n')] *)

Lemma lstrip_nl_starts (s : string) : starts_with_nl (Py.lstrip_nl s) = false.
Proof.
  induction s as [|a s IH]; simpl; [done|].
  destruct (Ascii.eqb a Py.nl) eqn:E; [done|]. simpl. by rewrite E.
Qed.

Lemma rstrip_nl_ends (s : string) : ends_with_nl (Py.rstrip_nl s) = false.
Proof.
  induction s as [|a s IH]; simpl; [done|].
  destruct (Py.rstrip_nl s) as [|b r] eqn:Hr; simpl.
  - destruct (Ascii.eqb a Py.nl) eqn:E; simpl; [done | by rewrite E].
  - rewrite andb_false_r. exact IH.
Qed.

Lemma rstrip_nl_starts (s : string) :
  starts_with_nl s = false → starts_with_nl (Py.rstrip_nl s) = false.
Proof.
  destruct s as [|a s]; simpl; [done|]. intros Ha.
  by destruct (Ascii.eqb a Py.nl && negb (Py.truthy (Py.rstrip_nl s))).
Qed.

Lemma lstrip_nl_fixed (s : string) :
  starts_with_nl s = false → Py.lstrip_nl s = s.
Proof. destruct s as [|a s]; simpl; [done|]. by intros ->. Qed.

Lemma rstrip_nl_fixed (s : string) :
  ends_with_nl s = false → Py.rstrip_nl s = s.
Proof.
  induction s as [|a s IH]; [done|].
  destruct s as [|b s].
  - simpl. by intros ->.
  - intros H. change (ends_with_nl (String b s) = false) in H.
    change (Py.rstrip_nl (String a (String b s)))
      with (if Ascii.eqb a Py.nl
               && negb (Py.truthy (Py.rstrip_nl (String b s)))
            then EmptyString
            else String a (Py.rstrip_nl (String b s))).
    rewrite (IH H). simpl. by rewrite andb_false_r.
Qed.

(** X1.  What [strip('\n')] leaves neither starts nor ends with a line
    break; stripping again changes nothing; and the texts it leaves alone
    are exactly those that neither start nor end with a line break. *)
Theorem strip_nl_trims (s : string) :
  starts_with_nl (Py.strip_nl s) = false ∧
  ends_with_nl (Py.strip_nl s) = false ∧
  Py.strip_nl (Py.strip_nl s) = Py.strip_nl s ∧
  (Py.strip_nl s = s ↔ starts_with_nl s = false ∧ ends_with_nl s = false).
Proof.
  assert (Hfix : ∀ t, starts_with_nl t = false → ends_with_nl t = false →
                      Py.strip_nl t = t).
  { intros t Hs He. unfold Py.strip_nl.
    by rewrite (lstrip_nl_fixed t Hs), (rstrip_nl_fixed t He). }
  assert (Hs : starts_with_nl (Py.strip_nl s) = false).
  { apply rstrip_nl_starts, lstrip_nl_starts. }
  assert (He : ends_with_nl (Py.strip_nl s) = false).
  { apply rstrip_nl_ends. }
  split_and!; [done | done | by apply Hfix |].
  split.
  - intros <-. done.
  - intros [? ?]. by apply Hfix.
Qed.

(** ** The replacement of [;\s+] and the split *)

Lemma sub_semi_space_step (skipping : bool) (a : ascii) (s : string) :
  Py.sub_semi_space skipping (String a s)
  = if skipping && Py.is_space a then Py.sub_semi_space true s
    else if Ascii.eqb a Py.semi && Py.starts_with_space s
         then String Py.semi (String Py.nl (Py.sub_semi_space true s))
         else String a (Py.sub_semi_space false s).
Proof. reflexivity. Qed.

Lemma semi_is_no_space (a : ascii) :
  Ascii.eqb a Py.semi = true → Py.is_space a = false.
Proof. intros H. apply Ascii.eqb_eq in H. by subst. Qed.

Lemma sub_false_starts (s : string) :
  Py.starts_with_space (Py.sub_semi_space false s) = Py.starts_with_space s.
Proof.
  destruct s as [|a s]; [done|]. rewrite sub_semi_space_step.
  cbn [andb Py.starts_with_space].
  destruct (Ascii.eqb a Py.semi) eqn:E; cbn [andb]; [|reflexivity].
  destruct (Py.starts_with_space s); cbn [Py.starts_with_space];
    rewrite (semi_is_no_space a E); reflexivity.
Qed.

Lemma sub_true_nonspace (s : string) :
  Py.starts_with_space s = false →
  Py.sub_semi_space true s = Py.sub_semi_space false s.
Proof.
  destruct s as [|a s]; [done|]. simpl. by intros ->.
Qed.

(** The result of the replacement, in either mode of the scan, is in normal
    form; after skipped white space it does not start with white space. *)
Lemma sub_semi_space_normal (s : string) :
  semi_normal (Py.sub_semi_space false s) = true ∧
  semi_normal (Py.sub_semi_space true s) = true ∧
  Py.starts_with_space (Py.sub_semi_space true s) = false.
Proof.
  induction s as [|a s (IHf & IHt & IHs)]; [done|].
  assert (Hfalse : semi_normal (Py.sub_semi_space false (String a s)) = true).
  { rewrite sub_semi_space_step. simpl.
    destruct (Ascii.eqb a Py.semi && Py.starts_with_space s) eqn:E.
    - simpl. by rewrite IHs, IHt.
    - simpl. rewrite sub_false_starts, E. exact IHf. }
  split; [exact Hfalse|].
  rewrite sub_semi_space_step.
  destruct (Py.is_space a) eqn:Ha; simpl; [done|].
  rewrite sub_semi_space_step in Hfalse. simpl in Hfalse.
  split; [exact Hfalse|].
  destruct (Ascii.eqb a Py.semi && Py.starts_with_space s); simpl; [done|].
  exact Ha.
Qed.

Lemma semi_normal_fixed_step (s : string) :
  (semi_normal s = true → Py.sub_semi_space false s = s) ∧
  (∀ a, semi_normal (String a s) = true →
        Py.sub_semi_space false (String a s) = String a s).
Proof.
  induction s as [|b s [IH1 IH2]].
  - split; [done|]. intros a _. rewrite sub_semi_space_step. simpl.
    by rewrite andb_false_r.
  - split; [apply IH2|].
    intros a. rewrite sub_semi_space_step.
    cbn [semi_normal andb]. simpl Py.starts_with_space.
    destruct (Ascii.eqb a Py.semi && Py.is_space b) eqn:E.
    + intros H. apply andb_true_iff in H as [H Hn].
      apply andb_true_iff in H as [Hb Hs].
      apply Ascii.eqb_eq in Hb. subst b.
      apply andb_true_iff in E as [Ea _]. apply Ascii.eqb_eq in Ea. subst a.
      apply negb_true_iff in Hs.
      rewrite (sub_semi_space_step true). simpl.
      by rewrite (sub_true_nonspace s Hs), (IH1 Hn).
    + intros H. by rewrite (IH2 b H).
Qed.

(** X2.  The replacement of [;\s+] by [;\n] puts a text in normal form
    (every [;] that is followed by white space is followed by exactly one
    line break), it leaves exactly the texts in normal form as they are,
    and so doing it twice is the same as doing it once. *)
Theorem re_sub_normal_form (s : string) :
  semi_normal (Py.re_sub s) = true ∧
  (Py.re_sub s = s ↔ semi_normal s = true) ∧
  Py.re_sub (Py.re_sub s) = Py.re_sub s.
Proof.
  assert (Hn : semi_normal (Py.re_sub s) = true)
    by apply sub_semi_space_normal.
  split_and!.
  - exact Hn.
  - split.
    + intros <-. exact Hn.
    + apply semi_normal_fixed_step.
  - by apply semi_normal_fixed_step.
Qed.

Lemma split_head_starts (s p : string) (ps : list string) :
  Py.split_semi_nl s = p :: ps →
  Py.starts_with_space p = true → Py.starts_with_space s = true.
Proof.
  destruct s as [|a [|b s]].
  - simpl. by intros [= <- <-].
  - simpl. by intros [= <- <-].
  - rewrite split_semi_nl_step.
    destruct (Ascii.eqb a Py.semi && Ascii.eqb b Py.nl).
    + by intros [= <- <-].
    + destruct (split_semi_nl_cons (String b s)) as (p' & ps' & ->).
      simpl. by intros [= <- <-].
Qed.

Lemma semi_normal_step (a b : ascii) (s : string) :
  semi_normal (String a (String b s))
  = if Ascii.eqb a Py.semi && Py.is_space b
    then Ascii.eqb b Py.nl && negb (Py.starts_with_space s) && semi_normal s
    else semi_normal (String b s).
Proof. reflexivity. Qed.

Lemma has_semi_space_step (a : ascii) (s : string) :
  has_semi_space (String a s)
  = (Ascii.eqb a Py.semi && Py.starts_with_space s) || has_semi_space s.
Proof. reflexivity. Qed.

Lemma split_pieces_step (s : string) :
  (semi_normal s = true →
   Forall (λ piece, has_semi_space piece = false) (Py.split_semi_nl s)) ∧
  (∀ a, semi_normal (String a s) = true →
        Forall (λ piece, has_semi_space piece = false)
          (Py.split_semi_nl (String a s))).
Proof.
  induction s as [|b s [IH1 IH2]].
  - split; intros; repeat constructor. simpl. by rewrite andb_false_r.
  - split; [apply IH2|].
    intros a. rewrite split_semi_nl_step, semi_normal_step.
    assert (Hrest : semi_normal (String b s) = true →
                    Ascii.eqb a Py.semi && Py.is_space b = false →
                    Forall (λ piece, has_semi_space piece = false)
                      (Py.cons_piece a (Py.split_semi_nl (String b s)))).
    { intros Hb Hab. pose proof (IH2 b Hb) as Hall.
      destruct (split_semi_nl_cons (String b s)) as (p & ps & Hsplit).
      rewrite Hsplit in Hall |- *.
      apply Forall_cons in Hall as [Hp Hps].
      constructor; [|done].
      rewrite has_semi_space_step, Hp, orb_false_r.
      destruct (Ascii.eqb a Py.semi) eqn:Ea; [|done].
      destruct (Py.starts_with_space p) eqn:Hsp; [|done].
      pose proof (split_head_starts _ _ _ Hsplit Hsp) as Hs.
      cbn [andb] in Hab. cbn [Py.starts_with_space] in Hs. congruence. }
    destruct (Ascii.eqb a Py.semi && Py.is_space b) eqn:Hab.
    + intros H. apply andb_true_iff in H as [H Hn].
      apply andb_true_iff in H as [Hb _].
      apply andb_true_iff in Hab as [Ea _].
      rewrite Ea, Hb. cbn [andb].
      constructor; [done | by apply IH1].
    + intros H.
      destruct (Ascii.eqb a Py.semi && Ascii.eqb b Py.nl) eqn:E;
        [|by apply Hrest].
      apply andb_true_iff in E as [Ea Eb].
      apply Ascii.eqb_eq in Eb. subst b. rewrite Ea in Hab. discriminate.
Qed.

(** X3.  The statements that the resolver splits off a file: none is
    empty, and in none is a [;] followed by white space: the text is split
    at every such place. *)
Theorem split_statements_pieces (content q : string) :
  q ∈ split_statements content →
  q ≠ "" ∧ has_semi_space q = false.
Proof.
  unfold split_statements, Py.nonempty.
  rewrite list_elem_of_In, filter_In, <- list_elem_of_In.
  intros [Hq Hne]. split.
  - intros ->. discriminate.
  - pose proof (proj1 (split_pieces_step (Py.re_sub content))
                  (proj1 (sub_semi_space_normal content))) as Hall.
    rewrite Forall_forall in Hall. by apply Hall.
Qed.

Lemma split_statements_pieces_witness :
  insert_1 ∈ split_statements inserts_on_one_line ∧
  insert_1 ≠ "" ∧ has_semi_space insert_1 = false.
Proof.
  assert (H : insert_1 ∈ split_statements inserts_on_one_line)
    by apply list_elem_of_here.
  split; [exact H|].
  exact (split_statements_pieces inserts_on_one_line insert_1 H).
Defined.

(** ** Shaping the rows of [impala_query] *)

Lemma shape_row_untouched (name : column) (desc : list column)
    (row : impala_row) :
  name ∉ desc →
  ∀ idx acc m, shape_row idx desc row acc = Some m → m !! name = acc !! name.
Proof.
  induction desc as [|c desc IH]; intros Hname idx acc m; simpl.
  - by intros [= <-].
  - apply not_elem_of_cons in Hname as [Hc Hdesc].
    destruct (row !! idx) as [v|]; [|done].
    intros H. rewrite (IH Hdesc _ _ _ H). by apply lookup_insert_ne.
Qed.

Lemma shape_row_defined (desc : list column) (row : impala_row) :
  ∀ idx acc,
    is_Some (shape_row idx desc row acc)
    ↔ desc = [] ∨ (idx + List.length desc ≤ List.length row)%nat.
Proof.
  induction desc as [|c desc IH]; intros idx acc; simpl.
  - split; [by left | by eexists].
  - destruct (row !! idx) as [v|] eqn:Hv.
    + rewrite IH. apply lookup_lt_Some in Hv.
      split.
      * intros [-> | Hle]; right; simpl; lia.
      * intros [? | Hle]; [done|].
        destruct desc; [by left | right; simpl in *; lia].
    + apply lookup_ge_None in Hv. split.
      * by intros [? ?].
      * intros [? | Hle]; [done | lia].
Qed.

(** X4.  Shaping a row succeeds exactly when the row has a value for every
    entry of the description; a row that is too short makes [row[idx]]
    raise. *)
Theorem shape_row_bounds (desc : list column) (row : impala_row) :
  is_Some (shape_row 0 desc row ∅)
  ↔ (List.length desc ≤ List.length row)%nat.
Proof.
  rewrite shape_row_defined. split.
  - intros [-> | ?]; simpl; lia.
  - intros ?. right. lia.
Qed.

(** X5.  In a shaped row, a description entry is mapped to the value at the
    position of its last occurrence in the description (a later column with
    the same entry replaces an earlier one), and nothing else is a key. *)
Theorem shape_row_lookup (desc : list column) (row : impala_row)
    (m : shaped_row) :
  shape_row 0 desc row ∅ = Some m →
  (∀ before after name,
     desc = (before ++ name :: after)%list → name ∉ after →
     m !! name = row !! List.length before) ∧
  (∀ name, name ∉ desc → m !! name = None).
Proof.
  intros Hm. split.
  - assert (H : ∀ before after name idx acc m,
               shape_row idx (before ++ name :: after) row acc = Some m →
               name ∉ after →
               m !! name = row !! (idx + List.length before)%nat).
    { clear. induction before as [|c before IH];
        intros after name idx acc m; simpl.
      - destruct (row !! idx) as [v|] eqn:Hv; [|done].
        intros H Hafter.
        rewrite (shape_row_untouched name after row Hafter _ _ _ H).
        rewrite Nat.add_0_r, Hv. apply lookup_insert_eq.
      - destruct (row !! idx) as [v|]; [|done].
        intros H Hafter. rewrite (IH _ _ _ _ _ H Hafter).
        f_equal. lia. }
    intros before after name -> Hafter. by apply (H _ _ _ _ _ _ Hm).
  - intros name Hname.
    by rewrite (shape_row_untouched name desc row Hname _ _ _ Hm).
Qed.

Lemma shape_row_lookup_witness :
  let desc := [("id", "INT"); ("name", "STRING"); ("id", "INT")] in
  let row := [PInt 1; PStr "a"; PInt 2] in
  ∃ m, shape_row 0 desc row ∅ = Some m ∧
       m !! ("id", "INT") = Some (PInt 2) ∧
       m !! ("name", "STRING") = Some (PStr "a") ∧
       m !! ("age", "INT") = None.
Proof.
  intros desc row. eexists. split; [reflexivity|].
  pose proof (shape_row_lookup desc row _ eq_refl) as [Hin Hout].
  split_and!.
  - apply (Hin [("id", "INT"); ("name", "STRING")] [] ("id", "INT") eq_refl).
    apply not_elem_of_nil.
  - apply (Hin [("id", "INT")] [("id", "INT")] ("name", "STRING") eq_refl).
    intros H. apply list_elem_of_singleton in H. discriminate.
  - apply Hout. intros H.
    repeat (apply elem_of_cons in H as [H|H]; [discriminate|]).
    by apply elem_of_nil in H.
Defined.

Lemma shape_results_rows (cur : cursor impala_row)
    (results : list shaped_row) :
  shape_results cur = Some results →
  ∃ rows, fetchall cur = Rows rows ∧
          List.length results = List.length rows ∧
          (rows ≠ [] →
           ∃ desc, description cur = Some desc ∧
                   Forall (λ row, (List.length desc ≤ List.length row)%nat)
                     rows).
Proof.
  unfold shape_results.
  destruct (fetchall cur) as [rows| |]; [|done..].
  destruct rows as [|row rows].
  - intros [= <-]. by exists [].
  - destruct (description cur) as [desc|]; [|done].
    intros H. exists (row :: rows). split; [done|].
    split; [symmetry; by apply (length_mapM _ _ _ H)|].
    intros _. exists desc. split; [done|].
    apply mapM_Some in H.
    induction H as [|r m rs ms Hr _ IH]; constructor; [|done].
    assert (Hsome : is_Some (shape_row 0 desc r ∅)) by by rewrite Hr.
    apply shape_row_defined in Hsome as [-> | Hle]; simpl; lia.
Qed.

(** X6.  What the reporter of [impala_query] does with a result set.  After
    a statement with a positive row count whose rows are fetched and
    shaped: there is one shaped row for each fetched row, and every fetched
    row has a value for every entry of the description; the reporter
    commits and closes the connection; then [module.exit_json] reports the
    shaped rows and their number when there is no row or the description
    has no entry, and otherwise, the rows being keyed by tuples, the run
    ends with [TypeError], after the commit. *)
Theorem impala_reports_fetched_rows (env : environment impala_row)
    (p : params) (cur : cursor impala_row) (results : list shaped_row) :
  0 < rowcount cur →
  shape_results cur = Some results →
  let r := impala_report env p cur in
  (∃ rows, fetchall cur = Rows rows ∧
           List.length results = List.length rows ∧
           (rows ≠ [] →
            ∃ desc, description cur = Some desc ∧
                    Forall (λ row, (List.length desc ≤ List.length row)%nat)
                      rows)) ∧
  trace r = [EvFetchAll; EvCommit; EvCloseDb] ∧
  (results = [] ∨ description cur = Some [] →
   ∃ o, ending r = inr o ∧ query_results o = results ∧
        rowcount_out o = Z.of_nat (List.length results)) ∧
  (results ≠ [] → description cur ≠ Some [] →
   ending r = inl (Raise TypeError)).
Proof.
  intros Hcount Hshape r. subst r.
  rewrite (impala_report_rows env p cur results Hcount Hshape).
  unfold trace, ending. cbn [fst snd].
  pose proof (shape_results_writable cur results Hshape) as Hw.
  split_and!.
  - by apply shape_results_rows.
  - done.
  - intros Hempty. apply Hw in Hempty. rewrite Hempty. by eexists.
  - intros Hrows Hdesc.
    destruct (json_writable results); [|done].
    destruct (proj1 Hw eq_refl); done.
Qed.

Lemma impala_reports_fetched_rows_witness :
  shape_results impala_two_rows = Some shaped_two_rows ∧
  impala_report (impala_host ∅ impala_two_rows)
    (task "batch.sql" (Some "ran.log")) impala_two_rows
  = ([EvFetchAll; EvCommit; EvCloseDb], inl (Raise TypeError)).
Proof.
  split; [reflexivity|].
  destruct (impala_reports_fetched_rows (impala_host ∅ impala_two_rows)
              (task "batch.sql" (Some "ran.log")) impala_two_rows
              shaped_two_rows) as (_ & Htrace & _ & Hend).
  - reflexivity.
  - reflexivity.
  - rewrite (run_eta (impala_report _ _ _)), Htrace, Hend; [done|..];
      discriminate.
Defined.

(** ** The keyword arguments of [connect] *)

Section DriverKeywords.
Context (params_map : gmap string string) (keeps : pyval → bool).

(** No two module options share a driver keyword. *)
Hypothesis Hinjective :
  ∀ k1 k2 keyword,
    params_map !! k1 = Some keyword → params_map !! k2 = Some keyword →
    k1 = k2.

(** The keywords built from [module.params]: a keyword holds the value of
    the module option it stands for, when that option is set to a value
    that passes the test. *)
Lemma driver_keywords_lookup (module_params : gmap string pyval)
    (keyword : string) (v : pyval) :
  driver_keywords params_map keeps module_params !! keyword = Some v
  ↔ ∃ k, params_map !! k = Some keyword ∧ module_params !! k = Some v ∧
         keeps v = true.
Proof.
  unfold driver_keywords. revert keyword v.
  apply (map_fold_weak_ind
           (λ kw m, ∀ keyword v,
              kw !! keyword = Some v
              ↔ ∃ k, params_map !! k = Some keyword ∧ m !! k = Some v ∧
                     keeps v = true)).
  - intros keyword v. rewrite lookup_empty. split; [done|].
    intros (k & _ & Hk & _). by rewrite lookup_empty in Hk.
  - intros i x m r Hi IH keyword v.
    assert (Hother : r !! keyword = Some v
                     ↔ ∃ k, k ≠ i ∧ params_map !! k = Some keyword ∧
                            m !! k = Some v ∧ keeps v = true).
    { rewrite IH. split.
      - intros (k & Hk & Hm & Hv). exists k. split_and!; try done.
        intros ->. congruence.
      - intros (k & _ & Hk & Hm & Hv). by exists k. }
    destruct (params_map !! i) as [kwd|] eqn:Hkwd;
      [destruct (keeps x) eqn:Hx|].
    + destruct (decide (kwd = keyword)) as [->|Hne].
      * rewrite lookup_insert_eq. split.
        -- intros [= ->]. exists i. by rewrite lookup_insert_eq.
        -- intros (k & Hk & Hm & Hv).
           rewrite (Hinjective k i keyword Hk Hkwd), lookup_insert_eq in Hm.
           done.
      * rewrite lookup_insert_ne by done. rewrite Hother. split.
        -- intros (k & Hki & Hk & Hm & Hv). exists k.
           by rewrite lookup_insert_ne.
        -- intros (k & Hk & Hm & Hv).
           assert (k ≠ i) by (intros ->; congruence).
           exists k. by rewrite lookup_insert_ne in Hm.
    + rewrite Hother. split.
      * intros (k & Hki & Hk & Hm & Hv). exists k.
        by rewrite lookup_insert_ne.
      * intros (k & Hk & Hm & Hv).
        assert (k ≠ i).
        { intros ->. rewrite lookup_insert_eq in Hm. congruence. }
        exists k. by rewrite lookup_insert_ne in Hm.
    + rewrite Hother. split.
      * intros (k & Hki & Hk & Hm & Hv). exists k.
        by rewrite lookup_insert_ne.
      * intros (k & Hk & Hm & Hv).
        assert (k ≠ i) by (intros ->; congruence).
        exists k. by rewrite lookup_insert_ne in Hm.
Qed.

End DriverKeywords.

Lemma impala_params_map_lookup (k keyword : string) :
  impala_params_map !! k = Some keyword ↔ (k, keyword) ∈ impala_options.
Proof.
  symmetry. apply (elem_of_list_to_map (M := gmap string)).
  apply (bool_decide_unpack _). vm_compute. exact I.
Qed.

Lemma pg_params_map_lookup (k keyword : string) :
  pg_params_map !! k = Some keyword ↔ (k, keyword) ∈ pg_options.
Proof.
  symmetry. apply (elem_of_list_to_map (M := gmap string)).
  apply (bool_decide_unpack _). vm_compute. exact I.
Qed.

Ltac option_cases H :=
  repeat (apply elem_of_cons in H as [H|H]; [injection H as ? ?|]);
  [..|by apply elem_of_nil in H].

Lemma impala_params_map_injective (k1 k2 keyword : string) :
  impala_params_map !! k1 = Some keyword →
  impala_params_map !! k2 = Some keyword → k1 = k2.
Proof.
  rewrite !impala_params_map_lookup. intros H1 H2.
  option_cases H1; option_cases H2; congruence.
Qed.

Lemma pg_params_map_injective (k1 k2 keyword : string) :
  pg_params_map !! k1 = Some keyword →
  pg_params_map !! k2 = Some keyword → k1 = k2.
Proof.
  rewrite !pg_params_map_lookup. intros H1 H2.
  option_cases H1; option_cases H2; congruence.
Qed.

Lemma with_unix_socket_cases (module_params kw kw' : gmap string pyval) :
  with_unix_socket module_params kw = Some kw' →
  kw' = kw ∨
  ∃ socket, module_params !! "login_unix_socket" = Some socket ∧
            socket ≠ PStr "" ∧ kw' = <["host" := socket]> kw.
Proof.
  unfold with_unix_socket.
  destruct (is_localhost kw); [|intros [= <-]; by left].
  destruct (module_params !! "login_unix_socket") as [socket|]; [|done].
  case_bool_decide as Hs; intros [= <-]; [|by left].
  right. by exists socket.
Qed.

(** X7.  The keywords handed to [connect]: every key is a driver keyword of
    [params_map] (no other module option gets through), and no value is the
    empty string.  In [postgresql_query] no value is [None] either, except
    a [host] taken from the socket option. *)
Theorem connect_keywords_filtered :
  (∀ module_params kw keyword v,
     impala_connect_kw module_params = Some kw →
     kw !! keyword = Some v →
     keyword ∈ impala_options.*2 ∧ v ≠ PStr "")
  ∧
  (∀ module_params kw keyword v,
     pg_connect_kw module_params = Some kw →
     kw !! keyword = Some v →
     keyword ∈ pg_options.*2 ∧ v ≠ PStr "" ∧
     (keyword ≠ "host" → v ≠ PNone)).
Proof.
  split.
  - intros mp kw keyword v Hkw Hv.
    destruct (with_unix_socket_cases _ _ _ Hkw)
      as [-> | (socket & _ & Hs & ->)].
    + apply (driver_keywords_lookup _ _ impala_params_map_injective) in Hv
        as (k & Hk & _ & Hkeep).
      apply impala_params_map_lookup in Hk. split.
      * apply list_elem_of_fmap. by exists (k, keyword).
      * by apply bool_decide_eq_true in Hkeep.
    + destruct (decide (keyword = "host")) as [->|Hne].
      * rewrite lookup_insert_eq in Hv. injection Hv as <-.
        split; [|done]. set_solver.
      * rewrite lookup_insert_ne in Hv by done.
        apply (driver_keywords_lookup _ _ impala_params_map_injective) in Hv
          as (k & Hk & _ & Hkeep).
        apply impala_params_map_lookup in Hk. split.
        -- apply list_elem_of_fmap. by exists (k, keyword).
        -- by apply bool_decide_eq_true in Hkeep.
  - intros mp kw keyword v Hkw Hv.
    destruct (with_unix_socket_cases _ _ _ Hkw)
      as [-> | (socket & _ & Hs & ->)].
    + apply (driver_keywords_lookup _ _ pg_params_map_injective) in Hv
        as (k & Hk & _ & Hkeep).
      apply pg_params_map_lookup in Hk.
      apply andb_true_iff in Hkeep as [H1 H2].
      apply bool_decide_eq_true in H1, H2. split_and!; [|done..].
      apply list_elem_of_fmap. by exists (k, keyword).
    + destruct (decide (keyword = "host")) as [->|Hne].
      * rewrite lookup_insert_eq in Hv. injection Hv as <-.
        split_and!; [|done..]. set_solver.
      * rewrite lookup_insert_ne in Hv by done.
        apply (driver_keywords_lookup _ _ pg_params_map_injective) in Hv
          as (k & Hk & _ & Hkeep).
        apply pg_params_map_lookup in Hk.
        apply andb_true_iff in Hkeep as [H1 H2].
        apply bool_decide_eq_true in H1, H2. split_and!; [|done..].
        apply list_elem_of_fmap. by exists (k, keyword).
Qed.

Lemma connect_keywords_filtered_witness :
  ∃ kw, impala_connect_kw socket_params = Some kw ∧
        kw !! "host" = Some (PStr "/var/run/db.sock") ∧
        kw !! "query" = None ∧
        "host" ∈ impala_options.*2.
Proof.
  eexists. split; [vm_compute; reflexivity|].
  split; [vm_compute; reflexivity|]. split; [vm_compute; reflexivity|].
  refine (proj1 (proj1 connect_keywords_filtered socket_params _ "host"
                   (PStr "/var/run/db.sock") _ _)).
  - vm_compute. reflexivity.
  - vm_compute. reflexivity.
Defined.

Section HostRule.
Context (params_map : gmap string string) (keeps : pyval → bool).

Hypothesis Hinjective :
  ∀ k1 k2 keyword,
    params_map !! k1 = Some keyword → params_map !! k2 = Some keyword →
    k1 = k2.
Hypothesis Hhost : params_map !! "login_host" = Some "host".
Hypothesis Hempty : keeps (PStr "") = false.

Lemma driver_keywords_host (module_params : gmap string pyval) :
  driver_keywords params_map keeps module_params !! "host"
  = kept_host keeps module_params.
Proof.
  apply option_eq. intros v.
  rewrite (driver_keywords_lookup _ _ Hinjective). unfold kept_host.
  split.
  - intros (k & Hk & Hm & Hv).
    rewrite (Hinjective _ _ _ Hk Hhost) in Hm. by rewrite Hm, Hv.
  - destruct (module_params !! "login_host") as [host|] eqn:Hm; [|done].
    destruct (keeps host) eqn:Hv; [|done].
    intros [= <-]. by exists "login_host".
Qed.

Lemma host_rule_holds :
  host_rule keeps
    (λ module_params,
       with_unix_socket module_params
         (driver_keywords params_map keeps module_params)).
Proof.
  intros mp. unfold with_unix_socket, is_localhost.
  rewrite driver_keywords_host. split.
  - intros host Hm Hv Hremote. unfold kept_host. rewrite Hm, Hv.
    rewrite (bool_decide_eq_false_2 (host = PStr ""))
      by (intros ->; congruence).
    rewrite (bool_decide_eq_false_2 _ Hremote). simpl.
    eexists. split; [done|].
    rewrite driver_keywords_host. unfold kept_host. by rewrite Hm, Hv.
  - intros socket Hlocal Hsocket.
    assert (Hl : match kept_host keeps mp with
                 | Some host =>
                     bool_decide (host = PStr "")
                     || bool_decide (host = PStr "localhost")
                 | None => true
                 end = true).
    { unfold kept_host, local_host in *.
      destruct (mp !! "login_host") as [host|]; [|done].
      destruct (keeps host) eqn:Hv; [|done].
      destruct Hlocal as [? | ->]; [congruence|].
      by rewrite orb_true_r. }
    rewrite Hl, Hsocket. eexists. split; [done|].
    case_bool_decide.
    + apply lookup_insert_eq.
    + apply driver_keywords_host.
Qed.

End HostRule.

(** X8.  The [host] keyword, in both modules: a [login_host] that is set
    and is not ['localhost'] goes to the driver, and the socket option is
    not looked at; when [login_host] is unset, empty or ['localhost'], a
    socket path that is not empty becomes the host, and with an empty
    socket path the host is ['localhost'] or is left out. *)
Theorem host_keyword :
  host_rule impala_keeps impala_connect_kw ∧
  host_rule pg_keeps pg_connect_kw.
Proof.
  split.
  - apply (host_rule_holds impala_params_map impala_keeps
             impala_params_map_injective); reflexivity.
  - apply (host_rule_holds pg_params_map pg_keeps
             pg_params_map_injective); reflexivity.
Qed.

Lemma host_keyword_witness :
  (∃ kw, impala_connect_kw remote_params = Some kw ∧
         kw !! "host" = Some (PStr "db.example.org")) ∧
  (∃ kw, pg_connect_kw socket_params = Some kw ∧
         kw !! "host" = Some (PStr "/var/run/db.sock")).
Proof.
  destruct host_keyword as [Himpala Hpg]. split.
  - refine (proj1 (Himpala remote_params) (PStr "db.example.org") _ _ _).
    + vm_compute. reflexivity.
    + reflexivity.
    + discriminate.
  - refine (proj2 (Hpg socket_params) (PStr "/var/run/db.sock") _ _).
    + left. reflexivity.
    + vm_compute. reflexivity.
Defined.

Lemma driver_keywords_of_option (params_map : gmap string string)
    (keeps : pyval → bool) (module_params : gmap string pyval)
    (k keyword : string) :
  (∀ k1 k2 keyword,
     params_map !! k1 = Some keyword → params_map !! k2 = Some keyword →
     k1 = k2) →
  params_map !! k = Some keyword →
  driver_keywords params_map keeps module_params !! keyword
  = match module_params !! k with
    | Some v => if keeps v then Some v else None
    | None => None
    end.
Proof.
  intros Hinjective Hk. apply option_eq. intros v.
  rewrite (driver_keywords_lookup _ _ Hinjective). split.
  - intros (k' & Hk' & Hm & Hv).
    rewrite (Hinjective _ _ _ Hk' Hk) in Hm. by rewrite Hm, Hv.
  - destruct (module_params !! k) as [v'|] eqn:Hm; [|done].
    destruct (keeps v') eqn:Hv; [|done].
    intros [= <-]. by exists k.
Qed.

Lemma with_unix_socket_other (module_params kw kw' : gmap string pyval)
    (keyword : string) :
  with_unix_socket module_params kw = Some kw' →
  keyword ≠ "host" → kw' !! keyword = kw !! keyword.
Proof.
  intros H Hne.
  destruct (with_unix_socket_cases _ _ _ H) as [-> | (s & _ & _ & ->)];
    [done|].
  by apply lookup_insert_ne.
Qed.

(** X9.  An option other than the host that is missing or set to the empty
    string is left out of the keywords by both modules.  An option that is
    [None] (the default of [login_password] and [db]) is left out by
    [postgresql_query], but [impala_query], which only tests [v != ""],
    passes it to the driver with the value [None]. *)
Theorem unset_options (module_params : gmap string pyval)
    (k keyword : string) :
  (k, keyword) ∈ impala_options →
  keyword ≠ "host" →
  (module_params !! k = None ∨ module_params !! k = Some (PStr "") →
   (∀ kw, impala_connect_kw module_params = Some kw → kw !! keyword = None)
   ∧ (∀ kw, pg_connect_kw module_params = Some kw → kw !! keyword = None))
  ∧
  (module_params !! k = Some PNone →
   (∀ kw, impala_connect_kw module_params = Some kw →
          kw !! keyword = Some PNone)
   ∧ (∀ kw, pg_connect_kw module_params = Some kw → kw !! keyword = None)).
Proof.
  intros Hk Hne.
  assert (Hi : impala_params_map !! k = Some keyword)
    by by apply impala_params_map_lookup.
  assert (Hp : pg_params_map !! k = Some keyword).
  { apply pg_params_map_lookup. unfold pg_options.
    apply elem_of_app. by left. }
  assert (Himpala : ∀ kw, impala_connect_kw module_params = Some kw →
            kw !! keyword = match module_params !! k with
                            | Some v => if impala_keeps v then Some v else None
                            | None => None
                            end).
  { intros kw H. rewrite (with_unix_socket_other _ _ _ _ H Hne).
    by apply driver_keywords_of_option, Hi;
      apply impala_params_map_injective. }
  assert (Hpg : ∀ kw, pg_connect_kw module_params = Some kw →
            kw !! keyword = match module_params !! k with
                            | Some v => if pg_keeps v then Some v else None
                            | None => None
                            end).
  { intros kw H. rewrite (with_unix_socket_other _ _ _ _ H Hne).
    by apply driver_keywords_of_option, Hp; apply pg_params_map_injective. }
  split.
  - intros [Hm | Hm]; split; intros kw H.
    + by rewrite (Himpala kw H), Hm.
    + by rewrite (Hpg kw H), Hm.
    + by rewrite (Himpala kw H), Hm.
    + by rewrite (Hpg kw H), Hm.
  - intros Hm; split; intros kw H.
    + by rewrite (Himpala kw H), Hm.
    + by rewrite (Hpg kw H), Hm.
Qed.

Lemma unset_options_witness :
  (∃ kw, impala_connect_kw socket_params = Some kw ∧
         kw !! "password" = Some PNone) ∧
  (∃ kw, pg_connect_kw socket_params = Some kw ∧ kw !! "password" = None).
Proof.
  assert (Hk : ("login_password", "password") ∈ impala_options).
  { apply list_elem_of_further, list_elem_of_further, list_elem_of_here. }
  assert (Hne : "password" ≠ "host") by discriminate.
  destruct (proj2 (unset_options socket_params "login_password" "password"
                     Hk Hne)) as [Himpala Hpg].
  { vm_compute. reflexivity. }
  split; (eexists; split; [vm_compute; reflexivity|]).
  - apply Himpala. vm_compute. reflexivity.
  - apply Hpg. vm_compute. reflexivity.
Defined.

(** ** [Postgres.ensure_libs] *)

(** X10.  [ensure_libs] lets every version of the driver through when no
    root certificate is given.  With a root certificate it compares the
    version text with ['2.4.3'] as strings: a version that starts with
    [2.4.3], or with [2.5] to [2.9], passes; one that starts with [2.4.2]
    is refused; and so is every version that starts with [2.1], which
    includes 2.10 and later. *)
Theorem ensure_libs_version_gate :
  (∀ version, ensure_libs true version None = LibsOk ∧
              ensure_libs true version (Some "") = LibsOk) ∧
  (∀ cert rest digit,
     digit ∈ ["5"; "6"; "7"; "8"; "9"] →
     ensure_libs true ("2.4.3" +:+ rest) (Some cert) = LibsOk ∧
     ensure_libs true ("2." +:+ digit +:+ rest) (Some cert) = LibsOk) ∧
  (∀ cert rest,
     Py.truthy cert = true →
     ensure_libs true ("2.4.2" +:+ rest) (Some cert) ≠ LibsOk ∧
     ensure_libs true ("2.1" +:+ rest) (Some cert) ≠ LibsOk).
Proof.
  split_and!.
  - intros version. split; reflexivity.
  - intros cert rest digit Hd. unfold ensure_libs. simpl negb. cbv iota.
    split.
    + assert (H : String.ltb ("2.4.3" +:+ rest) "2.4.3" = false).
      { unfold String.ltb. simpl. by destruct rest. }
      by rewrite H, andb_false_r.
    + assert (H : String.ltb ("2." +:+ digit +:+ rest) "2.4.3" = false).
      { repeat (apply elem_of_cons in Hd as [->|Hd]; [reflexivity|]).
        by apply elem_of_nil in Hd. }
      by rewrite H, andb_false_r.
  - intros cert rest Hcert. unfold ensure_libs. rewrite Hcert.
    split; discriminate.
Qed.

Lemma ensure_libs_version_gate_witness :
  ensure_libs true "2.7.3.1 (dt dec pq3 ext lo64)" (Some "/etc/ca.pem")
  = LibsOk ∧
  ensure_libs true "2.10.0" (Some "/etc/ca.pem") ≠ LibsOk.
Proof.
  destruct ensure_libs_version_gate as (_ & Hpass & Hfail). split.
  - refine (proj2 (Hpass "/etc/ca.pem" ".3.1 (dt dec pq3 ext lo64)" "7" _)).
    apply list_elem_of_further, list_elem_of_further, list_elem_of_here.
  - exact (proj2 (Hfail "/etc/ca.pem" "0.0" eq_refl)).
Defined.

(** ** How runs begin and how they fail *)

(** A run of [impala_query] either stops before the executor loop, having
    done nothing but connect, read the file or open the log, or it has what
    the loop needs. *)
Lemma impala_main_cases (env : environment impala_row) (p : params) :
  (∃ tr s, impala_main env p = (tr, inl s) ∧
           forallb prelude_event tr = true ∧
           (∀ q a, s ≠ FailJson (StatementExecutionFailed q a)))
  ∨ (∃ path raw logpath, impala_file_setup env p path raw logpath).
Proof.
  unfold impala_main, ansible_module, require_driver, connect, get_query,
    read_query_file, open_query_log, resolve_queries.
  destruct (positional_args p) eqn:Hp, (named_args p) eqn:Hn; simpl;
    try (left; do 2 eexists; split_and!; [reflexivity..|discriminate]).
  all: destruct (has_driver env) eqn:Hd; simpl;
    try (left; do 2 eexists; split_and!; [reflexivity..|discriminate]).
  all: destruct (connect_ok env) eqn:Hc; simpl;
    try (left; do 2 eexists; split_and!; [reflexivity..|discriminate]).
  all: destruct (query p) as [q|] eqn:Hq; simpl;
    try (left; do 2 eexists; split_and!; [reflexivity..|discriminate]).
  all: destruct (Py.endswith q ".sql") eqn:Hs; simpl.
  all: lazymatch goal with
       | |- context [files _ !! ?path] =>
           destruct (files env !! path) as [raw|] eqn:Hf; simpl
       | |- _ => idtac
       end;
    try (left; do 2 eexists; split_and!; [reflexivity..|discriminate]).
  all: destruct (query_log p) as [logpath|] eqn:Hl; simpl;
    try (left; do 2 eexists; split_and!; [reflexivity..|discriminate]).
  all: destruct (Py.truthy logpath) eqn:Ht; simpl;
    try (left; do 2 eexists; split_and!; [reflexivity..|discriminate]).
  all: destruct (appendable env logpath) eqn:Ha; simpl;
    try (left; do 2 eexists; split_and!; [reflexivity..|discriminate]).
  all: right; exists q, raw, logpath; split; auto.
Qed.

(** A run of [postgresql_query] either stops before it submits anything,
    or submits one statement and goes on as the driver answers. *)
Lemma postgresql_main_cases (env : environment pg_row) (p : params) :
  (∃ tr s, postgresql_main env p = (tr, inl s) ∧
           forallb prelude_event tr = true ∧
           (∀ q a, s ≠ FailJson (StatementExecutionFailed q a)))
  ∨ (∃ q stmt pre,
       module_started env p q ∧ pg_statement env q stmt pre ∧
       postgresql_main env p
       = match execute env [] stmt (prepare_args p) with
         | None =>
             ((pre ++ [EvExecute stmt (prepare_args p)])%list,
              inl (FailJson
                     (StatementExecutionFailed None (prepare_args p))))
         | Some cur =>
             ((pre ++ EvExecute stmt (prepare_args p)
                   :: trace (postgresql_report env p cur))%list,
              ending (postgresql_report env p cur))
         end).
Proof.
  unfold postgresql_main, ansible_module, require_driver, connect, get_query,
    read_query_file.
  destruct (positional_args p) eqn:Hp, (named_args p) eqn:Hn; simpl;
    try (left; do 2 eexists; split_and!; [reflexivity..|discriminate]).
  all: destruct (has_driver env) eqn:Hd; simpl;
    try (left; do 2 eexists; split_and!; [reflexivity..|discriminate]).
  all: destruct (connect_ok env) eqn:Hc; simpl;
    try (left; do 2 eexists; split_and!; [reflexivity..|discriminate]).
  all: destruct (query p) as [q|] eqn:Hq; simpl;
    try (left; do 2 eexists; split_and!; [reflexivity..|discriminate]).
  all: destruct (Py.endswith q ".sql") eqn:Hs; simpl.
  all: lazymatch goal with
       | |- context [files _ !! ?path] =>
           destruct (files env !! path) as [raw|] eqn:Hf; simpl;
           [right; exists q, (Py.strip_nl raw), [EvConnect; EvReadFile q]
           |left; do 2 eexists; split_and!; [reflexivity..|discriminate]]
       | |- _ => right; exists q, q, [EvConnect]
       end.
  all: split_and!; [split; auto | by econstructor |].
  all: destruct (execute env [] _ _) as [cur|]; simpl; try reflexivity.
  all: by destruct (postgresql_report env p cur).
Qed.

Lemma prelude_events_quiet (tr : list event) :
  forallb prelude_event tr = true →
  submitted tr = [] ∧ log_writes tr = [] ∧
  Forall (λ e, closing_event e = false) tr.
Proof.
  induction tr as [|e tr IH]; simpl; [done|].
  intros H. apply andb_true_iff in H as [He Htr].
  destruct (IH Htr) as (Hs & Hl & Hc).
  destruct e; try discriminate; simpl; by split_and!; try constructor.
Qed.

(** X11.  Both modules fail early: a playbook that sets both
    [positional_args] and [named_args] is refused before anything is done;
    a missing driver is reported before any connection attempt; a
    connection that does not open ends the run right after the attempt. *)
Theorem modules_fail_early :
  fails_early postgresql_main ∧ fails_early impala_main.
Proof.
  split; intros env p; split_and!.
  1, 4: intros [l Hl] [d Hd];
    unfold postgresql_main, impala_main, ansible_module;
    by rewrite Hl, Hd.
  1, 3: intros Hx Hd;
    unfold postgresql_main, impala_main, require_driver;
    by rewrite (ansible_module_ok p Hx), Hd.
  all: intros Hx Hd Hc;
    unfold postgresql_main, impala_main, require_driver, connect;
    by rewrite (ansible_module_ok p Hx), Hd, Hc.
Qed.

Lemma modules_fail_early_witness :
  let p := {| query := Some "SELECT 1";
              positional_args := Some [PInt 1];
              named_args := Some {[ "id" := PInt 1 ]};
              fact := None;
              query_log := Some "ran.log" |} in
  postgresql_main (pg_host select_two_rows false) p
  = ([], inl (FailJson ConfigurationConflict)) ∧
  impala_main (batch_host two_inserts None) p
  = ([], inl (FailJson ConfigurationConflict)).
Proof.
  intros p. destruct modules_fail_early as [Hpg Himpala]. split.
  - apply (proj1 (Hpg (pg_host select_two_rows false) p)); by eexists.
  - apply (proj1 (Himpala (batch_host two_inserts None) p)); by eexists.
Defined.

(** X12.  No statement reaches the database unless the playbook sets at
    most one kind of arguments, the driver is installed, the connection
    opened and a query was given; in [impala_query], moreover, only when
    the query names a readable ['.sql'] file and the log could be opened. *)
Theorem submission_guard :
  (∀ (env : environment pg_row) (p : params),
     submitted (trace (postgresql_main env p)) ≠ [] →
     ∃ q, module_started env p q)
  ∧
  (∀ (env : environment impala_row) (p : params),
     submitted (trace (impala_main env p)) ≠ [] →
     ∃ path raw logpath, impala_file_setup env p path raw logpath).
Proof.
  split; intros env p Hsub.
  - destruct (postgresql_main_cases env p)
      as [(tr & s & Hrun & Hpre & _) | (q & _ & _ & Hstart & _)];
      [|by exists q].
    rewrite Hrun in Hsub. by destruct (prelude_events_quiet tr Hpre).
  - destruct (impala_main_cases env p)
      as [(tr & s & Hrun & Hpre & _) | Hsetup]; [|done].
    rewrite Hrun in Hsub. by destruct (prelude_events_quiet tr Hpre).
Qed.

Lemma submission_guard_witness :
  submitted (trace (impala_main (batch_host two_inserts None) batch_task))
  ≠ [] ∧
  ∃ path raw logpath,
    impala_file_setup (batch_host two_inserts None) batch_task
      path raw logpath.
Proof.
  assert (H : submitted
                (trace (impala_main (batch_host two_inserts None)
                          batch_task)) ≠ []) by discriminate.
  split; [exact H|].
  exact (proj2 submission_guard (batch_host two_inserts None) batch_task H).
Defined.

Lemma postgresql_report_no_fail_json (env : environment pg_row) (p : params)
    (cur : cursor pg_row) (f : failure) :
  ending (postgresql_report env p cur) ≠ inl (FailJson f).
Proof.
  unfold postgresql_report.
  destruct (0 <? rowcount cur); simpl;
    [destruct (fetchall cur); simpl|];
    destruct (negb (Py.contains "SELECT" (statusmessage cur)));
    try destruct (check_mode env); discriminate.
Qed.

Lemma impala_report_no_fail_json (env : environment impala_row) (p : params)
    (cur : cursor impala_row) (f : failure) :
  ending (impala_report env p cur) ≠ inl (FailJson f).
Proof.
  unfold impala_report.
  destruct (0 <? rowcount cur); simpl; [|discriminate].
  destruct (shape_results cur) as [results|]; simpl; [|discriminate].
  destruct (json_writable results); discriminate.
Qed.

Lemma executed_not_closing (args : arguments) (qs : list string) :
  Forall (λ e, closing_event e = false) (flat_map (executed args) qs).
Proof. induction qs; simpl; repeat constructor. done. Qed.

(** X13.  A run that ends in [module.fail_json] has neither committed nor
    rolled back, and has closed neither the connection nor the log: the
    modules release nothing on their failure paths. *)
Theorem failed_run_releases_nothing :
  (∀ (env : environment pg_row) (p : params) (f : failure),
     ending (postgresql_main env p) = inl (FailJson f) →
     Forall (λ e, closing_event e = false) (trace (postgresql_main env p)))
  ∧
  (∀ (env : environment impala_row) (p : params) (f : failure),
     ending (impala_main env p) = inl (FailJson f) →
     Forall (λ e, closing_event e = false) (trace (impala_main env p))).
Proof.
  split; intros env p f Hfail.
  - destruct (postgresql_main_cases env p)
      as [(tr & s & Hrun & Hpre & _) | (q & stmt & pre & _ & Hstmt & Hrun)].
    + rewrite Hrun. by apply prelude_events_quiet.
    + rewrite Hrun in Hfail |- *.
      destruct (execute env [] stmt (prepare_args p)) as [cur|].
      * by apply postgresql_report_no_fail_json in Hfail.
      * destruct Hstmt; repeat constructor.
  - destruct (impala_main_cases env p)
      as [(tr & s & Hrun & Hpre & _) | (path & raw & logpath & Hsetup)].
    + rewrite Hrun. by apply prelude_events_quiet.
    + rewrite (impala_main_file_run env p path raw logpath Hsetup)
        in Hfail |- *.
      unfold ending at 1 in Hfail. unfold trace at 1. simpl in *.
      destruct (run_queries_shape env
                  (already_ran_queries (default "" (files env !! logpath)))
                  (prepare_args p)
                  (statements_of path (Py.strip_nl raw)) []
                  (fresh_cursor env))
        as [(c & He & Ht) | (done & q & rest & _ & Ht & He)];
        rewrite He in Hfail |- *.
      * by apply impala_report_no_fail_json in Hfail.
      * rewrite Ht, app_nil_r. repeat constructor.
        apply Forall_app. split; [apply executed_not_closing|].
        repeat constructor.
Qed.

Lemma failed_run_releases_nothing_witness :
  let r := impala_main (picky_host two_inserts) batch_task in
  ending r
  = inl (FailJson (StatementExecutionFailed (Some (insert_2 +:+ ";"))
                     ArgNone)) ∧
  Forall (λ e, closing_event e = false) (trace r).
Proof.
  intros r. split; [reflexivity|].
  exact (proj2 failed_run_releases_nothing (picky_host two_inserts)
           batch_task _ eq_refl).
Defined.

(** ** The log and the statements the driver accepted *)

Section LoopHistory.
Context {R : Type} (env : environment R).
Context (already : list string) (args : arguments).

(** The loop with its history: the records written are those of the
    statements the driver accepted, each accepted after the ones before it;
    the statements submitted are these, and after them the rejected one when
    the loop stops. *)
Lemma run_queries_history (queries hist : list string) (cur : cursor R) :
  let r := run_queries env already args hist cur queries in
  ∃ done,
    log_writes (trace r) = List.map (λ q, Py.add q line_break) done ∧
    (∀ pre q post, done = (pre ++ q :: post)%list →
                   is_Some (execute env (hist ++ pre) q args)) ∧
    (submitted (trace r) = done
     ∨ ∃ q, submitted (trace r) = (done ++ [q])%list ∧
            execute env (hist ++ done) q args = None ∧
            ending r
            = inl (FailJson (StatementExecutionFailed (Some q) args))).
Proof.
  revert hist cur.
  induction queries as [|q rest IH]; intros hist cur; simpl.
  - exists []. split_and!; [done| |by left].
    intros pre q post H. by destruct pre.
  - destruct (Py.mem q already); simpl; [apply IH|].
    unfold trace, ending in *.
    destruct (execute env hist q args) as [cur'|] eqn:Hexec; simpl.
    + destruct (IH (hist ++ [q])%list cur') as (done & Hlog & Hacc & Hsub).
      exists (q :: done). split_and!.
      * simpl. by rewrite Hlog.
      * intros pre x post Hdone. destruct pre as [|y pre]; simpl in Hdone.
        -- injection Hdone as <- _. rewrite app_nil_r. by rewrite Hexec.
        -- injection Hdone as <- Hdone.
           specialize (Hacc pre x post Hdone).
           by rewrite <- app_assoc in Hacc.
      * destruct Hsub as [Hsub | (x & Hsub & Hrej & Hend)].
        -- left. simpl. by rewrite Hsub.
        -- right. exists x. rewrite <- app_assoc in Hrej.
           split_and!; [simpl; by rewrite Hsub | done | done].
    + exists []. split_and!; [done| |].
      * intros pre x post H. by destruct pre.
      * right. exists q. by rewrite app_nil_r.
Qed.

End LoopHistory.

(** X14.  In every run of [impala_query] the records written to the log
    are, in order, those of the statements that the driver accepted, each
    one accepted after the ones before it.  The statements submitted are
    these and, when the driver rejects a statement, that one after them:
    then the run fails with the rejected statement and the arguments, and
    the rejected statement has no record. *)
Theorem log_holds_accepted_statements (env : environment impala_row)
    (p : params) :
  let r := impala_main env p in
  let args := prepare_args p in
  ∃ done,
    log_writes (trace r) = List.map (λ q, Py.add q line_break) done ∧
    (∀ pre q post, done = (pre ++ q :: post)%list →
                   is_Some (execute env pre q args)) ∧
    (submitted (trace r) = done
     ∨ ∃ q, submitted (trace r) = (done ++ [q])%list ∧
            execute env done q args = None ∧
            ending r
            = inl (FailJson (StatementExecutionFailed (Some q) args))).
Proof.
  intros r args. subst r args.
  destruct (impala_main_cases env p)
    as [(tr & s & Hrun & Hpre & _) | (path & raw & logpath & Hsetup)].
  - rewrite Hrun. destruct (prelude_events_quiet tr Hpre) as (Hs & Hl & _).
    exists []. unfold trace. simpl. split_and!; [done| |by left].
    intros pre q post H. by destruct pre.
  - rewrite (impala_file_run_log_writes env p path raw logpath Hsetup),
      (impala_file_run_submitted env p path raw logpath Hsetup).
    destruct (run_queries_history env
                (already_ran_queries (default "" (files env !! logpath)))
                (prepare_args p) (statements_of path (Py.strip_nl raw)) []
                (fresh_cursor env))
      as (done & Hlog & Hacc & Hsub).
    exists done. split_and!; [done | done |].
    destruct Hsub as [Hsub | (q & Hsub & Hrej & Hend)]; [by left|].
    right. exists q. split_and!; [done | done |].
    rewrite (impala_main_file_run env p path raw logpath Hsetup).
    unfold ending at 1. simpl. by rewrite Hend.
Qed.

(** ** Batches at the edges *)

Lemma run_queries_all_skipped {R} (env : environment R)
    (already : list string) (args : arguments) (queries hist : list string)
    (cur : cursor R) :
  (∀ q, q ∈ queries → q ∈ already) →
  run_queries env already args hist cur queries = mret cur.
Proof.
  induction queries as [|q rest IH]; simpl; [done|].
  intros Hall.
  assert (Hq : Py.mem q already = true).
  { apply mem_elem_of, Hall, list_elem_of_here. }
  rewrite Hq. apply IH. intros x Hx. apply Hall. by apply list_elem_of_further.
Qed.

(** X15.  When every statement of the batch is already in the replay log,
    a run of [impala_query] submits nothing and writes nothing to the log;
    it closes the log and reports from the cursor as it was when it was
    created. *)
Theorem fully_logged_batch (env : environment impala_row) (p : params)
    (path raw logpath : string) :
  impala_file_setup env p path raw logpath →
  (∀ q, q ∈ statements_of path (Py.strip_nl raw) →
        q ∈ already_ran_queries (default "" (files env !! logpath))) →
  impala_main env p
  = (([EvConnect; EvReadFile path; EvOpenLog logpath; EvLogClose]
      ++ trace (impala_report env p (fresh_cursor env)))%list,
     ending (impala_report env p (fresh_cursor env))).
Proof.
  intros Hsetup Hall.
  rewrite (impala_main_file_run env p path raw logpath Hsetup).
  by rewrite (run_queries_all_skipped env _ _ _ _ _ Hall).
Qed.

Lemma fully_logged_batch_witness :
  let env := batch_host (insert_1 +:+ ";")
               (Some (insert_1 +:+ ";" +:+ line_break)) in
  impala_file_setup env batch_task "batch.sql" (insert_1 +:+ ";") "ran.log" ∧
  submitted (trace (impala_main env batch_task)) = [].
Proof.
  intros env.
  assert (Hsetup : impala_file_setup env batch_task "batch.sql"
                     (insert_1 +:+ ";") "ran.log").
  { split; try reflexivity. by left. }
  split; [exact Hsetup|].
  rewrite (fully_logged_batch env batch_task "batch.sql" (insert_1 +:+ ";")
             "ran.log" Hsetup).
  - reflexivity.
  - intros q Hq. exact Hq.
Defined.

(** X16.  A statement file whose trimmed content is empty: line 236 falls
    back to [[query]], so [impala_query] submits the path of the file as
    the statement (unless the path itself is in the log). *)
Theorem empty_statement_file (env : environment impala_row) (p : params)
    (path raw logpath : string) :
  impala_file_setup env p path raw logpath →
  Py.strip_nl raw = "" →
  path ∉ already_ran_queries (default "" (files env !! logpath)) →
  submitted (trace (impala_main env p)) = [path].
Proof.
  intros Hsetup Hempty Hnew.
  rewrite (impala_file_run_submitted env p path raw logpath Hsetup), Hempty.
  assert (Hmem : Py.mem path
                   (already_ran_queries (default "" (files env !! logpath)))
                 = false).
  { apply not_true_is_false. by rewrite mem_elem_of. }
  unfold statements_of. simpl. rewrite Hmem. simpl.
  by destruct (execute env [] path (prepare_args p)).
Qed.

Lemma empty_statement_file_witness :
  let env := batch_host line_break None in
  impala_file_setup env batch_task "batch.sql" line_break "ran.log" ∧
  submitted (trace (impala_main env batch_task)) = ["batch.sql"].
Proof.
  intros env.
  assert (Hsetup : impala_file_setup env batch_task "batch.sql" line_break
                     "ran.log").
  { split; try reflexivity. by left. }
  split; [exact Hsetup|].
  apply (empty_statement_file env batch_task "batch.sql" line_break "ran.log"
           Hsetup eq_refl).
  apply not_elem_of_nil.
Defined.

(** X17.  [postgresql_query] does not split a statement file: the whole
    trimmed content is submitted as the one statement of the run, whatever
    it holds. *)
Theorem postgresql_file_is_one_statement (env : environment pg_row)
    (p : params) (path raw : string) :
  module_started env p path →
  Py.endswith path ".sql" = true →
  files env !! path = Some raw →
  submitted (trace (postgresql_main env p)) = [Py.strip_nl raw] ∧
  ∃ rest, trace (postgresql_main env p)
          = EvConnect :: EvReadFile path
              :: EvExecute (Py.strip_nl raw) (prepare_args p) :: rest.
Proof.
  intros Hstart Hsql Hfile. start_module Hstart.
  rewrite Hsql. simpl. rewrite Hfile. simpl.
  destruct (execute env [] (Py.strip_nl raw) (prepare_args p)) as [cur|];
    simpl; [|by eauto].
  pose proof (postgresql_report_quiet env p cur) as Hquiet.
  unfold trace in *. rewrite Hquiet. eauto.
Qed.

Lemma postgresql_file_is_one_statement_witness :
  let env := with_files (pg_host select_two_rows false)
               {[ "batch.sql" := two_inserts ]} in
  submitted (trace (postgresql_main env (task "batch.sql" None)))
  = [insert_1 +:+ ";" +:+ line_break +:+ insert_2 +:+ ";"].
Proof.
  intros env.
  refine (proj1 (postgresql_file_is_one_statement env (task "batch.sql" None)
                   "batch.sql" two_inserts _ eq_refl eq_refl)).
  split; try reflexivity. by left.
Defined.

(** ** Replay of a batch of one statement *)

Lemma rstrip_nl_add_line_break (s : string) :
  Py.rstrip_nl (Py.add s line_break) = Py.rstrip_nl s.
Proof.
  induction s as [|a s IH]; [reflexivity|].
  change (Py.add (String a s) line_break)
    with (String a (Py.add s line_break)).
  simpl. by rewrite IH.
Qed.

Lemma strip_nl_record (s : string) :
  Py.strip_nl s = s → Py.strip_nl (Py.add s line_break) = s.
Proof.
  intros Hfix.
  assert (Hs : starts_with_nl s = false).
  { rewrite <- Hfix. apply rstrip_nl_starts, lstrip_nl_starts. }
  assert (He : ends_with_nl s = false).
  { rewrite <- Hfix. apply rstrip_nl_ends. }
  destruct s as [|a s]; [reflexivity|].
  unfold Py.strip_nl.
  change (Py.add (String a s) line_break)
    with (String a (Py.add s line_break)).
  rewrite lstrip_nl_fixed by exact Hs.
  change (String a (Py.add s line_break))
    with (Py.add (String a s) line_break).
  rewrite rstrip_nl_add_line_break. by apply rstrip_nl_fixed.
Qed.

Lemma statements_of_nonempty (path content q : string) :
  Py.endswith path ".sql" = true →
  q ∈ statements_of path content → Py.truthy q = true.
Proof.
  intros Hsql. unfold statements_of, split_statements, Py.nonempty.
  destruct (Py.truthy content).
  - rewrite list_elem_of_In, filter_In. by intros [_ ?].
  - intros Hq. apply list_elem_of_singleton in Hq as ->.
    by destruct path.
Qed.

(** X18.  Replay protection for a batch of one statement.  When the log is
    empty, the batch is the single statement [S], and [S] is a text that
    line 239 reads back as it is (no line break at either end, no [;]
    before a line break), then after a run in which the driver accepts [S]
    the log holds [S] and a line break, and a second run over the same file
    with that log submits nothing and writes nothing. *)
Theorem single_statement_replay (env : environment impala_row) (p : params)
    (path raw logpath S : string) (cur : cursor impala_row) :
  impala_file_setup env p path raw logpath →
  path ≠ logpath →
  default "" (files env !! logpath) = "" →
  statements_of path (Py.strip_nl raw) = [S] →
  Py.strip_nl S = S →
  Py.split_semi_nl S = [S] →
  execute env [] S (prepare_args p) = Some cur →
  let first := impala_main env p in
  let log := log_after "" (trace first) in
  let second :=
    impala_main (with_files env (<[logpath := log]> (files env))) p in
  submitted (trace first) = [S] ∧
  log = Py.add S line_break ∧
  submitted (trace second) = [] ∧
  log_writes (trace second) = [].
Proof.
  intros Hsetup Hpaths Hlog Hbatch Hstrip Hsplit Hexec first log second.
  assert (Hloop : run_queries env (already_ran_queries "") (prepare_args p)
                    [] (fresh_cursor env) [S]
                  = ([EvExecute S (prepare_args p);
                      EvLogWrite (Py.add S line_break)], inr cur)).
  { simpl. by rewrite Hexec. }
  assert (Hfirst : submitted (trace first) = [S] ∧
                   log_writes (trace first) = [Py.add S line_break]).
  { subst first.
    rewrite (impala_file_run_submitted env p path raw logpath Hsetup),
      (impala_file_run_log_writes env p path raw logpath Hsetup),
      Hlog, Hbatch, Hloop. done. }
  destruct Hfirst as [Hsub Hwrites].
  assert (Hlogged : log = Py.add S line_break).
  { subst log. unfold log_after. by rewrite Hwrites. }
  assert (Htruthy : Py.truthy S = true).
  { apply (statements_of_nonempty path (Py.strip_nl raw)).
    - by destruct Hsetup.
    - rewrite Hbatch. apply list_elem_of_here. }
  assert (Halready : already_ran_queries log = [S]).
  { unfold already_ran_queries, Py.nonempty.
    rewrite Hlogged, (strip_nl_record S Hstrip), Hsplit. simpl.
    by rewrite Htruthy. }
  assert (Hsetup2 : impala_file_setup
                      (with_files env (<[logpath := log]> (files env))) p
                      path raw logpath).
  { destruct Hsetup. split; simpl; try done.
    by rewrite lookup_insert_ne. }
  assert (Hskip : run_queries
                    (with_files env (<[logpath := log]> (files env)))
                    (already_ran_queries log) (prepare_args p) []
                    (fresh_cursor env) [S]
                  = mret (fresh_cursor env)).
  { apply run_queries_all_skipped. intros q Hq. by rewrite Halready. }
  split_and!; [done | done | |]; subst second.
  - rewrite (impala_file_run_submitted _ p path raw logpath Hsetup2).
    simpl. rewrite lookup_insert_eq. simpl. by rewrite Hbatch, Hskip.
  - rewrite (impala_file_run_log_writes _ p path raw logpath Hsetup2).
    simpl. rewrite lookup_insert_eq. simpl. by rewrite Hbatch, Hskip.
Qed.

Lemma single_statement_replay_witness :
  let env := batch_host (insert_1 +:+ ";" +:+ line_break) None in
  let first := impala_main env batch_task in
  let log := log_after "" (trace first) in
  let second :=
    impala_main (with_files env (<["ran.log" := log]> (files env)))
      batch_task in
  submitted (trace first) = [insert_1 +:+ ";"] ∧
  log = insert_1 +:+ ";" +:+ line_break ∧
  submitted (trace second) = [] ∧
  log_writes (trace second) = [].
Proof.
  intros env.
  refine (single_statement_replay env batch_task "batch.sql"
            (insert_1 +:+ ";" +:+ line_break) "ran.log" (insert_1 +:+ ";")
            idle_cursor _ _ eq_refl eq_refl eq_refl eq_refl eq_refl).
  - split; try reflexivity. by left.
  - discriminate.
Defined.

(** ** What the reporters and the loop hand to the outside *)

Lemma postgresql_report_events (env : environment pg_row) (p : params)
    (cur : cursor pg_row) :
  forallb report_event (trace (postgresql_report env p cur)) = true.
Proof.
  unfold postgresql_report.
  destruct (0 <? rowcount cur); simpl;
    [destruct (fetchall cur); simpl|];
    destruct (negb (Py.contains "SELECT" (statusmessage cur)));
    try destruct (check_mode env); reflexivity.
Qed.

Lemma impala_report_events (env : environment impala_row) (p : params)
    (cur : cursor impala_row) :
  forallb report_event (trace (impala_report env p cur)) = true.
Proof.
  unfold impala_report.
  destruct (0 <? rowcount cur); simpl; [|reflexivity].
  destruct (shape_results cur) as [results|]; simpl; [|done].
  by destruct (json_writable results).
Qed.

Lemma report_events_quiet (tr : list event) :
  forallb report_event tr = true →
  files_read tr = [] ∧ bound_arguments tr = [].
Proof.
  induction tr as [|e tr IH]; simpl; [done|].
  intros H. apply andb_true_iff in H as [He Htr].
  destruct (IH Htr) as [Hf Hb]. by destruct e.
Qed.

Lemma prelude_events_unbound (tr : list event) :
  forallb prelude_event tr = true → bound_arguments tr = [].
Proof.
  induction tr as [|e tr IH]; simpl; [done|].
  intros H. apply andb_true_iff in H as [He Htr].
  rewrite (IH Htr). by destruct e.
Qed.

Lemma bound_arguments_app (tr1 tr2 : list event) :
  bound_arguments (tr1 ++ tr2)
  = (bound_arguments tr1 ++ bound_arguments tr2)%list.
Proof. apply omap_app. Qed.

Lemma bound_arguments_executed (args : arguments) (qs : list string) :
  Forall (λ a, a = args) (bound_arguments (flat_map (executed args) qs)).
Proof. induction qs; simpl; by constructor. Qed.

(** X19.  Every statement that a run submits is bound to the same
    arguments, the ones prepared from the playbook: the list of
    [positional_args] when it is set, else the dict of [named_args], else
    [None].  In [impala_query] this holds for every statement of the
    batch. *)
Theorem statements_share_arguments :
  (∀ (env : environment pg_row) (p : params),
     Forall (λ a, a = prepare_args p)
       (bound_arguments (trace (postgresql_main env p))))
  ∧
  (∀ (env : environment impala_row) (p : params),
     Forall (λ a, a = prepare_args p)
       (bound_arguments (trace (impala_main env p))))
  ∧
  (∀ p, match positional_args p, named_args p with
        | Some l, _ => prepare_args p = ArgPositional l
        | None, Some d => prepare_args p = ArgNamed d
        | None, None => prepare_args p = ArgNone
        end).
Proof.
  split_and!.
  - intros env p.
    destruct (postgresql_main_cases env p)
      as [(tr & s & Hrun & Hpre & _) | (q & stmt & pre & _ & Hstmt & Hrun)].
    + rewrite Hrun. unfold trace. simpl.
      by rewrite (prelude_events_unbound tr Hpre).
    + rewrite Hrun.
      assert (Hp : bound_arguments pre = []) by by destruct Hstmt.
      destruct (execute env [] stmt (prepare_args p)) as [cur|];
        unfold trace at 1; simpl; rewrite bound_arguments_app, Hp; simpl;
        constructor; try done.
      by rewrite (proj2 (report_events_quiet _
                           (postgresql_report_events env p cur))).
  - intros env p.
    destruct (impala_main_cases env p)
      as [(tr & s & Hrun & Hpre & _) | (path & raw & logpath & Hsetup)].
    + rewrite Hrun. unfold trace. simpl.
      by rewrite (prelude_events_unbound tr Hpre).
    + rewrite (impala_main_file_run env p path raw logpath Hsetup).
      unfold trace at 1. simpl. rewrite bound_arguments_app.
      destruct (run_queries_shape env
                  (already_ran_queries (default "" (files env !! logpath)))
                  (prepare_args p)
                  (statements_of path (Py.strip_nl raw)) []
                  (fresh_cursor env))
        as [(c & He & Ht) | (done & q & rest & _ & Ht & He)];
        rewrite He, Ht.
      * simpl.
        rewrite (proj2 (report_events_quiet _
                          (impala_report_events env p c))), app_nil_r.
        apply bound_arguments_executed.
      * rewrite app_nil_r, bound_arguments_app. apply Forall_app.
        split; [apply bound_arguments_executed | by repeat constructor].
  - intros p. unfold prepare_args.
    by destruct (positional_args p), (named_args p).
Qed.

(** ** [endswith] and [in] on strings *)

Lemma endswith_refl (s : string) : Py.endswith s s = true.
Proof.
  destruct s as [|a s]; [reflexivity|].
  change (Py.endswith (String a s) (String a s))
    with (String.eqb (String a s) (String a s) || Py.endswith s (String a s)).
  by rewrite String.eqb_refl.
Qed.

Lemma endswith_step (s suffix : string) :
  Py.endswith s suffix
  = String.eqb s suffix
    || match s with
       | EmptyString => false
       | String _ s' => Py.endswith s' suffix
       end.
Proof. by destruct s. Qed.

Lemma contains_step (sub s : string) :
  Py.contains sub s
  = String.prefix sub s
    || match s with
       | EmptyString => false
       | String _ s' => Py.contains sub s'
       end.
Proof. by destruct s. Qed.

Lemma endswith_spec (s suffix : string) :
  Py.endswith s suffix = true ↔ ∃ pre, s = pre +:+ suffix.
Proof.
  split.
  - induction s as [|a s IH]; rewrite endswith_step.
    + rewrite orb_false_r. intros H. apply String.eqb_eq in H. by exists "".
    + intros H. apply orb_true_iff in H as [H|H].
      * apply String.eqb_eq in H. by exists "".
      * destruct (IH H) as [pre ->]. by exists (String a pre).
  - intros [pre ->]. induction pre as [|a pre IH].
    + apply endswith_refl.
    + change (String a pre +:+ suffix) with (String a (pre +:+ suffix)).
      rewrite endswith_step, IH. apply orb_true_r.
Qed.

Lemma append_cons (a : ascii) (s t : string) :
  String a s +:+ t = String a (s +:+ t).
Proof. reflexivity. Qed.

Lemma prefix_spec (p s : string) :
  String.prefix p s = true ↔ ∃ post, s = p +:+ post.
Proof.
  revert s. induction p as [|a p IH]; intros s.
  - split; [by exists s | by destruct s].
  - destruct s as [|b s]; simpl; [split; [done | by intros [? ?]]|].
    destruct (Ascii.ascii_dec a b) as [->|Hne].
    + rewrite IH. split; intros [post H]; exists post.
      * by rewrite append_cons, H.
      * rewrite append_cons in H. by injection H.
    + split; [done|]. intros [post H]. rewrite append_cons in H. congruence.
Qed.

Lemma contains_spec (sub s : string) :
  Py.contains sub s = true ↔ ∃ pre post, s = pre +:+ sub +:+ post.
Proof.
  split.
  - induction s as [|a s IH]; rewrite contains_step.
    + rewrite orb_false_r. intros H. apply prefix_spec in H as [post H].
      by exists "", post.
    + intros H. apply orb_true_iff in H as [H|H].
      * apply prefix_spec in H as [post H]. by exists "", post.
      * destruct (IH H) as (pre & post & ->). by exists (String a pre), post.
  - intros (pre & post & ->). induction pre as [|a pre IH].
    + rewrite contains_step.
      assert (H : String.prefix sub (sub +:+ post) = true)
        by (apply prefix_spec; by exists post).
      change ("" +:+ sub +:+ post) with (sub +:+ post). by rewrite H.
    + change (String a pre +:+ sub +:+ post)
        with (String a (pre +:+ sub +:+ post)).
      rewrite contains_step, IH. apply orb_true_r.
Qed.

Lemma files_read_app (tr1 tr2 : list event) :
  files_read (tr1 ++ tr2) = (files_read tr1 ++ files_read tr2)%list.
Proof. apply omap_app. Qed.

Lemma files_read_executed (args : arguments) (qs : list string) :
  files_read (flat_map (executed args) qs) = [].
Proof. induction qs; simpl; done. Qed.

Lemma run_queries_reads_nothing {R} (env : environment R)
    (already : list string) (args : arguments) (queries hist : list string)
    (cur : cursor R) :
  files_read (trace (run_queries env already args hist cur queries)) = [].
Proof.
  destruct (run_queries_shape env already args queries hist cur)
    as [(c & _ & ->) | (done & q & rest & _ & -> & _)].
  - apply files_read_executed.
  - by rewrite files_read_app, files_read_executed.
Qed.

Ltac impala_prelude Hx Hd Hc Hq :=
  unfold impala_main, require_driver, connect, get_query, read_query_file,
    open_query_log, resolve_queries;
  rewrite (ansible_module_ok _ Hx), Hd, Hc, Hq; simpl.

(** X20.  Whether a run reads a statement file is decided by the form of
    the query alone: a run that gets to the query opens the file named by
    it exactly when the query is some text followed by [.sql], and it opens
    no other statement file.  In both modules. *)
Theorem file_read_iff_sql_suffix :
  (∀ (env : environment pg_row) (p : params) (q : string),
     module_started env p q →
     files_read (trace (postgresql_main env p))
     = (if Py.endswith q ".sql" then [q] else []) ∧
     (Py.endswith q ".sql" = true ↔ ∃ pre, q = pre +:+ ".sql"))
  ∧
  (∀ (env : environment impala_row) (p : params) (q : string),
     module_started env p q →
     files_read (trace (impala_main env p))
     = (if Py.endswith q ".sql" then [q] else []) ∧
     (Py.endswith q ".sql" = true ↔ ∃ pre, q = pre +:+ ".sql")).
Proof.
  split; intros env p q Hstart; (split; [|apply endswith_spec]).
  - start_module Hstart.
    destruct (Py.endswith q ".sql"); simpl.
    + destruct (files env !! q) as [raw|]; simpl; [|done].
      destruct (execute env [] (Py.strip_nl raw) (prepare_args p))
        as [cur|]; simpl; [|done].
      pose proof (proj1 (report_events_quiet _
                           (postgresql_report_events env p cur))) as H.
      unfold trace in H. by rewrite H.
    + destruct (execute env [] q (prepare_args p)) as [cur|]; simpl; [|done].
      pose proof (proj1 (report_events_quiet _
                           (postgresql_report_events env p cur))) as H.
      unfold trace in H. by rewrite H.
  - destruct Hstart as [Hx Hd Hc Hq].
    destruct (Py.endswith q ".sql") eqn:Hsql.
    + destruct (files env !! q) as [raw|] eqn:Hf;
        [|impala_prelude Hx Hd Hc Hq; rewrite Hsql; simpl;
          by rewrite Hf].
      destruct (query_log p) as [logpath|] eqn:Hl;
        [|impala_prelude Hx Hd Hc Hq; rewrite Hsql; simpl;
          by rewrite Hf, Hl].
      destruct (Py.truthy logpath) eqn:Ht;
        [|impala_prelude Hx Hd Hc Hq; rewrite Hsql; simpl;
          by rewrite Hf, Hl, Ht].
      destruct (appendable env logpath) eqn:Ha;
        [|impala_prelude Hx Hd Hc Hq; rewrite Hsql; simpl;
          rewrite Hf, Hl, Ht; simpl; by rewrite Ha].
      assert (Hsetup : impala_file_setup env p q raw logpath) by by split.
      rewrite (impala_main_file_run env p q raw logpath Hsetup).
      unfold trace at 1. simpl.
      rewrite files_read_app, run_queries_reads_nothing. simpl.
      destruct (ending _) as [s|cur]; [done|]. simpl.
      by rewrite (proj1 (report_events_quiet _
                           (impala_report_events env p cur))).
    + impala_prelude Hx Hd Hc Hq. rewrite Hsql. simpl.
      destruct (query_log p) as [logpath|]; simpl; [|done].
      destruct (Py.truthy logpath); simpl; [|done].
      by destruct (appendable env logpath).
Qed.

Lemma file_read_iff_sql_suffix_witness :
  files_read
    (trace (impala_main (batch_host two_inserts None) batch_task))
  = ["batch.sql"] ∧
  files_read
    (trace (postgresql_main (pg_host select_two_rows false)
              (task "SELECT 1" None)))
  = [].
Proof.
  destruct file_read_iff_sql_suffix as [Hpg Himpala]. split.
  - refine (proj1 (Himpala (batch_host two_inserts None) batch_task
                     "batch.sql" _)).
    split; try reflexivity. by left.
  - refine (proj1 (Hpg (pg_host select_two_rows false)
                     (task "SELECT 1" None) "SELECT 1" _)).
    split; try reflexivity. by left.
Defined.

(** X21.  The change flag of [postgresql_query] looks for the six letters
    anywhere in the status text: a completed run reports no change exactly
    when the status is some text, [SELECT], and some text. *)
Theorem unchanged_iff_status_has_select (env : environment pg_row)
    (p : params) (o : output pg_row) :
  ending (postgresql_main env p) = inr o →
  (changed o = false
   ↔ ∃ pre post, stout_lines o = pre +:+ "SELECT" +:+ post).
Proof.
  intros Hexit.
  destruct (postgresql_main_exit env p o Hexit)
    as (q & cur & _ & _ & Hreport & _).
  destruct (postgresql_report_exit env p cur o Hreport)
    as (_ & _ & _ & _ & _ & -> & -> & _).
  rewrite negb_false_iff. apply contains_spec.
Qed.

Lemma unchanged_iff_status_has_select_witness :
  ∃ o, ending (postgresql_main (pg_host select_two_rows false)
                 (task "SELECT * FROM t" None)) = inr o ∧
       changed o = false.
Proof.
  eexists. split; [reflexivity|].
  apply (unchanged_iff_status_has_select (pg_host select_two_rows false)
           (task "SELECT * FROM t" None) _ eq_refl).
  by exists "", " 2".
Defined.

(** X22.  [impala_query] needs its log: a run that gets to the query, and
    is not stopped by an unreadable statement file, fails when [query_log]
    is missing or empty, and fails with the path when the log cannot be
    opened; in both cases no statement is submitted. *)
Theorem impala_needs_its_log (env : environment impala_row) (p : params)
    (q : string) :
  module_started env p q →
  Py.endswith q ".sql" = false ∨ is_Some (files env !! q) →
  (query_log p = None ∨ query_log p = Some "" →
   ending (impala_main env p) = inl (FailJson NoQueryLogPath) ∧
   submitted (trace (impala_main env p)) = [])
  ∧
  (∀ logpath,
     query_log p = Some logpath → Py.truthy logpath = true →
     appendable env logpath = false →
     ending (impala_main env p) = inl (FailJson (LogUnavailable logpath)) ∧
     submitted (trace (impala_main env p)) = []).
Proof.
  intros [Hx Hd Hc Hq] Hfile.
  split.
  - intros Hlog. impala_prelude Hx Hd Hc Hq.
    destruct (Py.endswith q ".sql") eqn:Hsql; simpl.
    + destruct Hfile as [? | [raw Hraw]]; [done|]. rewrite Hraw. simpl.
      by destruct Hlog as [-> | ->].
    + by destruct Hlog as [-> | ->].
  - intros logpath Hlog Ht Ha. impala_prelude Hx Hd Hc Hq.
    destruct (Py.endswith q ".sql") eqn:Hsql; simpl.
    + destruct Hfile as [? | [raw Hraw]]; [done|]. rewrite Hraw. simpl.
      rewrite Hlog, Ht. simpl. by rewrite Ha.
    + rewrite Hlog, Ht. simpl. by rewrite Ha.
Qed.

Lemma impala_needs_its_log_witness :
  ending (impala_main (batch_host two_inserts None)
            (task "batch.sql" None))
  = inl (FailJson NoQueryLogPath).
Proof.
  refine (proj1 (proj1 (impala_needs_its_log (batch_host two_inserts None)
                          (task "batch.sql" None) "batch.sql" _ _) _)).
  - split; try reflexivity. by left.
  - right. by eexists.
  - by left.
Defined.

(** ** Order of the events of a run *)

(** X23.  In a run of [impala_query] that reaches the loop, what happens
    after the log is opened is a sequence of pairs, a statement submitted
    and its record written right after it, before the next statement is
    looked at; the sequence ends either with a statement that the driver
    rejects (nothing is written for it and the run fails) or with the
    closing of the log, after which the reporter runs. *)
Theorem records_follow_executions (env : environment impala_row)
    (p : params) (path raw logpath : string) :
  impala_file_setup env p path raw logpath →
  ∃ done tail,
    trace (impala_main env p)
    = ([EvConnect; EvReadFile path; EvOpenLog logpath]
       ++ flat_map (executed (prepare_args p)) done ++ tail)%list ∧
    ((∃ q, tail = [EvExecute q (prepare_args p)] ∧
           ending (impala_main env p)
           = inl (FailJson
                    (StatementExecutionFailed (Some q) (prepare_args p))))
     ∨ (∃ cur, tail = EvLogClose :: trace (impala_report env p cur) ∧
               ending (impala_main env p)
               = ending (impala_report env p cur))).
Proof.
  intros Hsetup.
  rewrite (impala_main_file_run env p path raw logpath Hsetup).
  destruct (run_queries_shape env
              (already_ran_queries (default "" (files env !! logpath)))
              (prepare_args p)
              (statements_of path (Py.strip_nl raw)) [] (fresh_cursor env))
    as [(c & He & Ht) | (done & q & rest & _ & Ht & He)];
    rewrite He, Ht; unfold trace at 1; unfold ending at 1 2; cbn [fst snd].
  - exists (to_run
              (already_ran_queries (default "" (files env !! logpath)))
              (statements_of path (Py.strip_nl raw))),
      (EvLogClose :: trace (impala_report env p c)).
    split; [reflexivity|]. right. by exists c.
  - exists done, [EvExecute q (prepare_args p)].
    split; [by rewrite app_nil_r|].
    left. by exists q.
Qed.

Lemma records_follow_executions_witness :
  let env := picky_host two_inserts in
  impala_file_setup env batch_task "batch.sql" two_inserts "ran.log" ∧
  ∃ done tail,
    trace (impala_main env batch_task)
    = ([EvConnect; EvReadFile "batch.sql"; EvOpenLog "ran.log"]
       ++ flat_map (executed (prepare_args batch_task)) done ++ tail)%list ∧
    ((∃ q, tail = [EvExecute q (prepare_args batch_task)] ∧
           ending (impala_main env batch_task)
           = inl (FailJson
                    (StatementExecutionFailed (Some q)
                       (prepare_args batch_task))))
     ∨ (∃ cur, tail = EvLogClose :: trace (impala_report env batch_task cur) ∧
               ending (impala_main env batch_task)
               = ending (impala_report env batch_task cur))).
Proof.
  intros env.
  assert (Hsetup : impala_file_setup env batch_task "batch.sql" two_inserts
                     "ran.log").
  { split; try reflexivity. by left. }
  split; [exact Hsetup|].
  exact (records_follow_executions env batch_task "batch.sql" two_inserts
           "ran.log" Hsetup).
Defined.

(** X24.  In [postgresql_query], a statement that leaves no positive row
    count (an [INSERT] of nothing, a [CREATE TABLE]) makes the run end in
    [UnboundLocalError] only after the transaction is settled: when the
    status text has no [SELECT] the work has been committed (rolled back in
    check mode), and the connection has been closed. *)
Theorem no_rows_crash_after_commit (env : environment pg_row) (p : params)
    (q : string) (cur : cursor pg_row) :
  submitted (trace (postgresql_main env p)) = [q] →
  execute env [] q (prepare_args p) = Some cur →
  rowcount cur ≤ 0 →
  ending (postgresql_main env p)
  = inl (Raise (UnboundLocalError "ansible_facts")) ∧
  List.filter closing_event (trace (postgresql_main env p))
  = ((if negb (Py.contains "SELECT" (statusmessage cur))
      then [if check_mode env then EvRollback else EvCommit]
      else []) ++ [EvCloseDb])%list.
Proof.
  intros Hsub Hexec Hcount.
  destruct (postgresql_main_cases env p)
    as [(tr & s & Hrun & Hpre & _) | (q' & stmt & pre & _ & Hstmt & Hrun)].
  - rewrite Hrun in Hsub. unfold trace in Hsub. simpl in Hsub.
    destruct (prelude_events_quiet tr Hpre) as (Hs & _).
    rewrite Hs in Hsub. discriminate.
  - assert (Hpre : submitted pre = [] ∧ List.filter closing_event pre = [])
      by by destruct Hstmt.
    destruct Hpre as [Hp1 Hp2].
    assert (stmt = q) as ->.
    { rewrite Hrun in Hsub.
      destruct (execute env [] stmt (prepare_args p)); unfold trace in Hsub;
        simpl in Hsub; rewrite submitted_app, Hp1 in Hsub; simpl in Hsub;
        congruence. }
    rewrite Hexec in Hrun. rewrite Hrun.
    unfold trace, ending. simpl.
    rewrite List.filter_app, Hp2. simpl.
    unfold postgresql_report.
    destruct (0 <? rowcount cur) eqn:E; [apply Z.ltb_lt in E; lia|].
    simpl.
    destruct (negb (Py.contains "SELECT" (statusmessage cur)));
      [destruct (check_mode env)|]; done.
Qed.

Lemma no_rows_crash_after_commit_witness :
  let r := postgresql_main (pg_host create_table false)
             (task "CREATE TABLE t (id int)" None) in
  ending r = inl (Raise (UnboundLocalError "ansible_facts")) ∧
  List.filter closing_event (trace r) = [EvCommit; EvCloseDb].
Proof.
  intros r.
  refine (no_rows_crash_after_commit (pg_host create_table false)
            (task "CREATE TABLE t (id int)" None) "CREATE TABLE t (id int)"
            create_table eq_refl eq_refl _).
  simpl. lia.
Defined.

(** X25.  How a completed run winds up.  [impala_query] closes the log,
    then commits, then closes the connection, each once.
    [postgresql_query] commits or rolls back at most once, as its change
    flag says, and then closes the connection once. *)
Theorem completed_run_winds_up :
  (∀ (env : environment impala_row) (p : params) (o : output shaped_row),
     ending (impala_main env p) = inr o →
     List.filter closing_event (trace (impala_main env p))
     = [EvLogClose; EvCommit; EvCloseDb])
  ∧
  (∀ (env : environment pg_row) (p : params) (o : output pg_row),
     ending (postgresql_main env p) = inr o →
     List.filter closing_event (trace (postgresql_main env p))
     = ((if changed o
         then [if check_mode env then EvRollback else EvCommit]
         else []) ++ [EvCloseDb])%list).
Proof.
  split; intros env p o Hexit.
  - destruct (impala_main_exit_setup env p o Hexit)
      as (path & raw & logpath & Hsetup).
    rewrite (impala_main_file_run env p path raw logpath Hsetup)
      in Hexit |- *.
    destruct (run_queries_shape env
                (already_ran_queries (default "" (files env !! logpath)))
                (prepare_args p)
                (statements_of path (Py.strip_nl raw)) []
                (fresh_cursor env))
      as [(c & He & Ht) | (done & q & rest & _ & Ht & He)];
      rewrite He in Hexit |- *; rewrite Ht;
      unfold ending at 1 in Hexit; unfold trace at 1; cbn [fst snd] in *;
      [|discriminate].
    rewrite !List.filter_app.
    assert (Hnone : ∀ qs, List.filter closing_event
                            (flat_map (executed (prepare_args p)) qs) = []).
    { induction qs; simpl; done. }
    rewrite Hnone. simpl. f_equal.
    revert Hexit. unfold impala_report.
    destruct (0 <? rowcount c); simpl; [|done].
    destruct (shape_results c) as [results|]; simpl; [|done].
    by destruct (json_writable results).
  - destruct (postgresql_main_cases env p)
      as [(tr & s & Hrun & _) | (q & stmt & pre & _ & Hstmt & Hrun)].
    + by rewrite Hrun in Hexit.
    + rewrite Hrun in Hexit |- *.
      destruct (execute env [] stmt (prepare_args p)) as [cur|];
        [|discriminate].
      unfold ending at 1 in Hexit. unfold trace at 1. cbn [fst snd] in *.
      rewrite List.filter_app.
      assert (Hpre : List.filter closing_event pre = [])
        by by destruct Hstmt.
      rewrite Hpre. simpl.
      revert Hexit. unfold postgresql_report.
      destruct (0 <? rowcount cur); simpl.
      * destruct (fetchall cur); simpl;
          destruct (negb (Py.contains "SELECT" (statusmessage cur)));
          try destruct (check_mode env); simpl; intros [= <-]; done.
      * destruct (negb (Py.contains "SELECT" (statusmessage cur)));
          try destruct (check_mode env); simpl; discriminate.
Qed.

Lemma completed_run_winds_up_witness :
  List.filter closing_event
    (trace (impala_main (batch_host two_inserts None) batch_task))
  = [EvLogClose; EvCommit; EvCloseDb] ∧
  List.filter closing_event
    (trace (postgresql_main (pg_host update_one_row true)
              (task "UPDATE t SET id = 3" None)))
  = [EvRollback; EvCloseDb].
Proof.
  destruct completed_run_winds_up as [Himpala Hpg]. split.
  - exact (Himpala (batch_host two_inserts None) batch_task _ eq_refl).
  - exact (Hpg (pg_host update_one_row true)
             (task "UPDATE t SET id = 3" None) _ eq_refl).
Defined.

(** X26.  When the [try] block of the reporter of [impala_query] raises,
    the run ends in [NameError] before [commit]: every statement of the
    batch that was let through has been executed and has its record in the
    log, and the log has been closed, but nothing is committed and the
    connection is not closed. *)
Theorem fetch_failure_leaves_uncommitted (env : environment impala_row)
    (p : params) (path raw logpath : string) (cur : cursor impala_row) :
  impala_file_setup env p path raw logpath →
  ending (run_queries env
            (already_ran_queries (default "" (files env !! logpath)))
            (prepare_args p) [] (fresh_cursor env)
            (statements_of path (Py.strip_nl raw))) = inr cur →
  0 < rowcount cur →
  shape_results cur = None →
  let batch :=
    to_run (already_ran_queries (default "" (files env !! logpath)))
      (statements_of path (Py.strip_nl raw)) in
  ending (impala_main env p) = inl (Raise (NameError "impala")) ∧
  submitted (trace (impala_main env p)) = batch ∧
  log_writes (trace (impala_main env p))
  = List.map (λ q, Py.add q line_break) batch ∧
  List.filter closing_event (trace (impala_main env p)) = [EvLogClose].
Proof.
  intros Hsetup Hloop Hcount Hshape batch.
  destruct (run_queries_shape env
              (already_ran_queries (default "" (files env !! logpath)))
              (prepare_args p)
              (statements_of path (Py.strip_nl raw)) [] (fresh_cursor env))
    as [(c & He & Ht) | (done & q & rest & _ & _ & He)];
    [|congruence].
  rewrite (impala_file_run_submitted env p path raw logpath Hsetup),
    (impala_file_run_log_writes env p path raw logpath Hsetup), Ht,
    submitted_executed, log_writes_executed.
  rewrite (impala_main_file_run env p path raw logpath Hsetup).
  unfold ending at 1. unfold trace at 1. cbn [fst snd].
  rewrite Hloop, Ht, (impala_report_fetch_failure env p cur Hcount Hshape).
  split_and!; try done.
  assert (Hnone : ∀ qs, List.filter closing_event
                          (flat_map (executed (prepare_args p)) qs) = []).
  { induction qs; simpl; done. }
  simpl. by rewrite List.filter_app, Hnone.
Qed.

Lemma fetch_failure_leaves_uncommitted_witness :
  let r := impala_main (batch_host_leaving update_one_row two_inserts None)
             batch_task in
  ending r = inl (Raise (NameError "impala")) ∧
  submitted (trace r) = [insert_1; insert_2 +:+ ";"] ∧
  List.filter closing_event (trace r) = [EvLogClose].
Proof.
  intros r.
  destruct (fetch_failure_leaves_uncommitted
              (batch_host_leaving update_one_row two_inserts None)
              batch_task "batch.sql" two_inserts "ran.log" update_one_row)
    as (Hend & Hsub & _ & Hclose).
  - split; try reflexivity. by left.
  - reflexivity.
  - reflexivity.
  - reflexivity.
  - split_and!; [exact Hend | exact Hsub | exact Hclose].
Defined.
